(** * pdf-comp: bitmap comparison and annotation engine

    A shallow embedding of [imgutils.go] and of [pdfcomp/pdfcomp.go], and the
    properties of the comparison pipeline proved over it.

    Conventions of the embedding.
    - A Go [byte] is a [Z] in [0, 256); a Go [int] is a [Z]; the result of a
      [range] over a length is a [nat].  Where the source multiplies a value
      read from its input the 64-bit wrap-around is written out ([wrap64]).
    - A [[][]byte] is a [list (list Z)], a [[][]bool] a [list (list bool)];
      the nil slice is the empty list.
    - A Go function that returns [(T, error)] becomes a function into
      [result T]: [Ok], [Err] for a returned error, [Panic] for a run-time
      panic (index out of range, slice bounds, integer division by zero,
      [make] with a negative length).
    - Writes to [os.Stderr] are not part of the model; the evaluation of
      their arguments is, when it can panic.
    - Lengths, indices and the radius of the stamp are bounded by the sizes
      of the slices held in memory; their arithmetic is that of [Z].
      Running out of memory is not modelled. *)

From Stdlib Require Import ZArith QArith String Ascii List Lia Bool DecimalString.
From stdpp Require Import base tactics option list numbers.

Local Open Scope Z_scope.

(** ** Results, errors and panics *)

Inductive error : Type :=
  | ErrHeight                       (* diffMatrix: inputs do not have the same height *)
  | ErrWidthAtRow (y : nat)         (* diffMatrix: inputs do not have the same width at row y *)
  | ErrEOF                          (* io.EOF *)
  | ErrUnsupportedFormat (format : string)
  | ErrInvalidSize (sizeStr : string)
  | ErrAtoi (s : string)            (* strconv.Atoi: syntax or range error *)
  | ErrPageCount (file : string) (e : error)
  | ErrWritePng (file : string) (e : error)
  | ErrExternal (msg : string).     (* an error reported by an external collaborator *)

Inductive panic : Type :=
  | IndexOutOfRange
  | SliceBoundsOutOfRange
  | DivideByZero
  | MakeSliceLenOutOfRange.

Inductive result (A : Type) : Type :=
  | Ok (a : A)
  | Err (e : error)
  | Panic (p : panic).

Arguments Ok {A} a.
Arguments Err {A} e.
Arguments Panic {A} p.

Definition bind {A B} (m : result A) (k : A -> result B) : result B :=
  match m with
  | Ok a => k a
  | Err e => Err e
  | Panic p => Panic p
  end.

Notation "'do' x <- m ; k" := (bind m (fun x => k))
  (at level 10, x name, m at level 100, k at level 200).
Notation "'do' ' p <- m ; k" := (bind m (fun x => match x with p => k end))
  (at level 10, p pattern, m at level 100, k at level 200).

(** The spec's error taxonomy, read off the error values. *)
Definition isDimensionMismatch (e : error) : bool :=
  match e with
  | ErrHeight | ErrWidthAtRow _ => true
  | _ => false
  end.

(** ** Slices *)

Abbreviation Matrix := (list (list Z)).
Abbreviation Mask := (list (list bool)).

(** [l[i]] for a Go [int] index. *)
Definition index {A} (l : list A) (i : Z) : result A :=
  if i <? 0 then Panic IndexOutOfRange
  else match l !! Z.to_nat i with
       | Some x => Ok x
       | None => Panic IndexOutOfRange
       end.

(** [l[i]] for an index produced by [range]. *)
Definition at_ {A} (l : list A) (i : nat) : result A :=
  match l !! i with
  | Some x => Ok x
  | None => Panic IndexOutOfRange
  end.

(** [l[i] = x]. *)
Definition store {A} (l : list A) (i : nat) (x : A) : result (list A) :=
  if decide (i < length l)%nat then Ok (<[i := x]> l) else Panic IndexOutOfRange.

(** [l[i] = x] for a Go [int] index. *)
Definition storeZ {A} (l : list A) (i : Z) (x : A) : result (list A) :=
  if i <? 0 then Panic IndexOutOfRange else store l (Z.to_nat i) x.

(** [l[lo:hi]]. *)
Definition slice {A} (l : list A) (lo hi : nat) : result (list A) :=
  if decide (lo <= hi <= length l)%nat then Ok (take (hi - lo) (drop lo l))
  else Panic SliceBoundsOutOfRange.

(** [l[lo:]] for a Go [int] bound. *)
Definition sliceFrom {A} (l : list A) (lo : Z) : result (list A) :=
  if (0 <=? lo) && (lo <=? Z.of_nat (length l)) then Ok (drop (Z.to_nat lo) l)
  else Panic SliceBoundsOutOfRange.

(** [make([]T, n)], filled with the zero value of [T]. *)
Definition make {A} (zero : A) (n : Z) : result (list A) :=
  if n <? 0 then Panic MakeSliceLenOutOfRange
  else Ok (replicate (Z.to_nat n) zero).

(** The built-in [copy(dst, src)]: the first [min(len(dst), len(src))]
    elements of [dst] are overwritten. *)
Definition copy {A} (dst src : list A) : list A :=
  take (length dst) src ++ drop (length src) dst.

(** [bytes.Equal]. *)
Definition bytesEqual (a b : list Z) : bool := bool_decide (a = b).

(** ** Loops *)

(** [for _, x := range xs { s, err = body(x, s); if err != nil { return err } }] *)
Fixpoint forEach {A St} (xs : list A) (body : A -> St -> result St) (s : St) : result St :=
  match xs with
  | [] => Ok s
  | x :: xs' => do s' <- body x s; forEach xs' body s'
  end.

(** [for i := range n { ... }] *)
Definition forRange {St} (n : nat) (body : nat -> St -> result St) (s : St) : result St :=
  forEach (seq 0 n) body s.

(** ** Diff engine: [diffMatrix] (imgutils.go, lines 51-67) *)

(** The inner loop: [diff[y][x] = !bytes.Equal(mat1[y][x*3:(x+1)*3], mat2[y][x*3:(x+1)*3])]
    for [x] in [range len(mat1[y])/3], on [diff[y] = make([]bool, len(mat1[y])/3)]. *)
Definition diffRow (row1 row2 : list Z) : result (list bool) :=
  forRange (length row1 / 3)%nat
    (fun x drow =>
       do p1 <- slice row1 (x * 3) ((x + 1) * 3);
       do p2 <- slice row2 (x * 3) ((x + 1) * 3);
       store drow x (negb (bytesEqual p1 p2)))
    (replicate (length row1 / 3)%nat false).

Definition diffMatrix (mat1 mat2 : Matrix) : result Mask :=
  if decide (length mat1 ≠ length mat2) then Err ErrHeight
  else
    forRange (length mat1)
      (fun y diff =>
         do row1 <- at_ mat1 y;
         do row2 <- at_ mat2 y;
         if decide (length row1 ≠ length row2) then Err (ErrWidthAtRow y)
         else
           do drow <- diffRow row1 row2;
           store diff y drow)
      (replicate (length mat1) []).


(** ** Content hasher: [hash] (imgutils.go, lines 70-79) *)

(** [crypto/sha256] is Go's standard library.  It is modelled by SHA-256 as
    FIPS 180-4 defines it, on 32-bit words held in [Z] with the reduction
    modulo [2^32] written out, so that digests can be computed.  The state of
    a hasher is the message written so far; [Sum] pads and compresses it. *)
Module Sha256.

Definition w32 (x : Z) : Z := x mod 2 ^ 32.
Definition add32 (x y : Z) : Z := w32 (x + y).
Definition rotr (n x : Z) : Z := Z.lor (Z.shiftr x n) (w32 (Z.shiftl x (32 - n))).
Definition not32 (x : Z) : Z := Z.lxor x 0xffffffff.

Definition Ch (x y z : Z) : Z := Z.lxor (Z.land x y) (Z.land (not32 x) z).
Definition Maj (x y z : Z) : Z :=
  Z.lxor (Z.lxor (Z.land x y) (Z.land x z)) (Z.land y z).
Definition bsig0 (x : Z) : Z := Z.lxor (Z.lxor (rotr 2 x) (rotr 13 x)) (rotr 22 x).
Definition bsig1 (x : Z) : Z := Z.lxor (Z.lxor (rotr 6 x) (rotr 11 x)) (rotr 25 x).
Definition ssig0 (x : Z) : Z := Z.lxor (Z.lxor (rotr 7 x) (rotr 18 x)) (Z.shiftr x 3).
Definition ssig1 (x : Z) : Z := Z.lxor (Z.lxor (rotr 17 x) (rotr 19 x)) (Z.shiftr x 10).

(** The first [n] primes, by trial division. *)
Definition isPrime (p : nat) : bool :=
  (2 <=? p)%nat && forallb (fun d => negb (p mod d =? 0)%nat) (seq 2 (p - 2)).

Definition primes (n : nat) : list Z :=
  map Z.of_nat (take n (filter (fun p => isPrime p = true) (seq 0 320))).

(** The integer cube root, one bit at a time from bit [bits - 1] down. *)
Fixpoint cubeRoot (bits : nat) (x n : Z) : Z :=
  match bits with
  | O => x
  | S bits' =>
      let y := x + 2 ^ Z.of_nat bits' in
      cubeRoot bits' (if y * y * y <=? n then y else x) n
  end.

(** The round constants: the first 32 bits of the fractional parts of the
    cube roots of the first 64 primes. *)
Definition K : list Z :=
  Eval vm_compute in map (fun p => w32 (cubeRoot 40 0 (p * 2 ^ 96))) (primes 64).

(** The initial hash value: the first 32 bits of the fractional parts of the
    square roots of the first 8 primes. *)
Definition H0 : list Z :=
  Eval vm_compute in map (fun p => w32 (Z.sqrt (p * 2 ^ 64))) (primes 8).

(** Big-endian bytes of a value, [n] of them. *)
Fixpoint bigEndian (n : nat) (x : Z) : list Z :=
  match n with
  | O => []
  | S n' => Z.shiftr x (8 * Z.of_nat n') mod 256 :: bigEndian n' x
  end.

Definition word (b : list Z) : Z :=
  fold_left (fun acc x => acc * 256 + x) b 0.

(** The message followed by [0x80], zero bytes up to 56 modulo 64, and the
    bit length on eight bytes. *)
Definition pad (msg : list Z) : list Z :=
  let len := Z.of_nat (length msg) in
  msg ++ [0x80] ++ replicate (Z.to_nat ((55 - len) mod 64)) 0 ++ bigEndian 8 (8 * len).

Fixpoint chunks (fuel n : nat) (l : list Z) : list (list Z) :=
  match fuel with
  | O => []
  | S fuel' =>
      match l with
      | [] => []
      | _ => take n l :: chunks fuel' n (drop n l)
      end
  end.

Fixpoint schedule (n : nat) (w : list Z) : list Z :=
  match n with
  | O => w
  | S n' =>
      let t := length w in
      let g i := nth (t - i) w 0 in
      schedule n' (w ++ [add32 (add32 (add32 (ssig1 (g 2%nat)) (g 7%nat)) (ssig0 (g 15%nat))) (g 16%nat)])
  end.

Definition round (s : list Z) (kw : Z * Z) : list Z :=
  match s with
  | [a; b; c; d; e; f; g; h] =>
      let t1 := add32 (add32 (add32 (add32 h (bsig1 e)) (Ch e f g)) (fst kw)) (snd kw) in
      let t2 := add32 (bsig0 a) (Maj a b c) in
      [add32 t1 t2; a; b; c; add32 d t1; e; f; g]
  | _ => s
  end.

Definition compress (h : list Z) (block : list Z) : list Z :=
  let w := schedule 48 (map word (chunks 16 4 block)) in
  zip_with add32 h (fold_left round (zip K w) h).

Definition sum256 (msg : list Z) : list Z :=
  let p := pad msg in
  flat_map (bigEndian 4) (fold_left compress (chunks (length p) 64 p) H0).

(** The [hash.Hash] interface, as [hash] uses it. *)
Definition state : Type := list Z.
Definition New : state := [].
(** [Write] appends to the message; it never returns an error. *)
Definition Write (h : state) (p : list Z) : result state := Ok (h ++ p).
Definition Sum (h : state) : list Z := sum256 h.

End Sha256.

(** [for y := range mat { _, err := h.Write(mat[y]); ... }; return h.Sum(nil), nil] *)
Definition hash (mat : Matrix) : result (list Z) :=
  do h <- forRange (length mat)
            (fun y h => do row <- at_ mat y; Sha256.Write h row)
            Sha256.New;
  Ok (Sha256.Sum h).

(** ** Equality of two matrices: [equalImgMatrix] (imgutils.go, lines 20-48)

    The two [Fprintf] calls of the [diff] branch evaluate [len(mat1[0])] and
    [len(diff[0])]; the second is evaluated before [err] is looked at, on the
    nil slice when [diffMatrix] failed. *)
Definition equalImgMatrix (mat1 mat2 : Matrix) (diff : bool) : result (bool * Mask) :=
  do sha1 <- hash mat1;
  do sha2 <- hash mat2;
  if bytesEqual sha1 sha2 then Ok (true, [])
  else if diff then
    do _ <- at_ mat1 0;
    let r := diffMatrix mat1 mat2 in
    let diff := match r with Ok d => d | _ => [] end in
    do _ <- at_ diff 0;
    do d <- r;
    Ok (false, d)
  else Ok (false, []).

(** ** Annotator: [circle], [highlightPixel], [highlightStamp], [diffImage]
       (imgutils.go, lines 186-256 and 276-295) *)

(** [circle]: a square stamp of side [2*radius+1], 255 inside the disc and 0
    outside.  The two loops of the source run over [y, x < size]. *)
Definition circle (radius : Z) : result Matrix :=
  let size := 2 * radius + 1 in
  do stamp <- make [] size;
  do stamp <- forRange (length stamp)
                (fun i stamp => do row <- make 0 size; store stamp i row) stamp;
  let centerY := radius in
  let centerX := radius in
  let radiusSquared := radius * radius in
  forRange (Z.to_nat size)
    (fun y stamp =>
       forRange (Z.to_nat size)
         (fun x stamp =>
            let dx := Z.of_nat x - centerX in
            let dy := Z.of_nat y - centerY in
            if dx * dx + dy * dy <=? radiusSquared then
              do row <- at_ stamp y;
              do row <- store row x 255;
              store stamp y row
            else Ok stamp)
         stamp)
    stamp.

(** [byte(f)] for a [float64] within the range of [byte]: the fraction is
    discarded. *)
Definition truncate (q : Q) : Z := Z.quot (Qnum q) (Zpos (Qden q)).

(** [highlightPixel].  The source computes in [float64]; every value it
    forms from three bytes is a multiple of 1/2 below 256, which [float64]
    holds exactly, so the arithmetic is that of the rationals. *)
Definition highlightPixel (r g b : Z) : Z * Z * Z :=
  let blendFactor : Q := 1 # 2 in
  let red := (inject_Z r * (1 - blendFactor) + inject_Z 255 * blendFactor)%Q in
  let green := (inject_Z g * (1 - blendFactor) + inject_Z 255 * blendFactor)%Q in
  let blue := (inject_Z b * (1 - blendFactor))%Q in
  let red := if Qle_bool red (inject_Z 255) then red else inject_Z 255 in
  let green := if Qle_bool green (inject_Z 255) then green else inject_Z 255 in
  let blue := if Qle_bool blue (inject_Z 255) then blue else inject_Z 255 in
  (truncate red, truncate green, truncate blue).

(** The assignment of lines 252-253: the three bytes of [newImage] at
    [(matrixY, matrixX)] become [highlightPixel] of the three bytes of [img]
    at the same place. *)
Definition blendInto (img newImage : Matrix) (matrixX matrixY : Z) : result Matrix :=
  do nrow <- index newImage matrixY;
  do irow <- index img matrixY;
  do r <- index irow matrixX;
  do g <- index irow (matrixX + 1);
  do b <- index irow (matrixX + 2);
  let '(r', g', b') := highlightPixel r g b in
  do nrow <- storeZ nrow matrixX r';
  do nrow <- storeZ nrow (matrixX + 1) g';
  do nrow <- storeZ nrow (matrixX + 2) b';
  storeZ newImage matrixY nrow.

(** [highlightStamp]: the stamp is blended into [newImage] around
    [(centerX, centerY)], [centerX] counted in bytes; the blend reads [img]. *)
Definition highlightStamp (img newImage stamp : Matrix) (centerX centerY : Z) : result Matrix :=
  let stampRows := length stamp in
  do stamp0 <- at_ stamp 0;
  let stampCols := length stamp0 in
  let rows := Z.of_nat (length img) in
  do img0 <- at_ img 0;
  let cols := Z.of_nat (length img0) in
  forRange stampRows
    (fun y newImage =>
       let matrixY := centerY - Z.of_nat (length stamp) / 2 + Z.of_nat y in
       if (matrixY <? 0) || (matrixY >=? rows) then Ok newImage
       else
         forRange stampCols
           (fun x newImage =>
              let matrixX := centerX - Z.of_nat (length stamp0) / 2 * 3 + Z.of_nat x * 3 in
              if (matrixX <? 0) || (matrixX + 2 >=? cols) then Ok newImage
              else
                do srow <- at_ stamp y;
                do s <- at_ srow x;
                if s =? 0 then Ok newImage
                else blendInto img newImage matrixX matrixY)
           newImage)
    newImage.

(** [diffImage]: [newMat] starts as a copy of [mat]; one stamp for every
    true entry of [diff]. *)
Definition diffImage (mat : Matrix) (diff : Mask) (radius : Z) : result Matrix :=
  do newMat <- forRange (length mat)
                 (fun y newMat =>
                    do row <- at_ mat y;
                    do fresh <- make 0 (Z.of_nat (length row));
                    store newMat y (copy fresh row))
                 (replicate (length mat) []);
  do stamp <- circle radius;
  forRange (length diff)
    (fun y newMat =>
       do drow <- at_ diff y;
       forRange (length drow)
         (fun x newMat =>
            do d <- at_ drow x;
            if d : bool then highlightStamp mat newMat stamp (Z.of_nat x * 3) (Z.of_nat y)
            else Ok newMat)
         newMat)
    newMat.

(** ** Compositor: [joinImages], [rgbToPNG] (imgutils.go, lines 258-274 and 297-309) *)

(** [joinImages].  The second [copy] writes through the slice
    [newImg[i][len(img1[i])+padding+1:]], which shares its bytes with
    [newImg[i]]: the row keeps what lies before the slice. *)
Definition joinImages (img1 img2 : Matrix) (padding : Z) : result Matrix :=
  let height := length img1 in
  do first1 <- at_ img1 0;
  do first2 <- at_ img2 0;
  let width := Z.of_nat (length first1) + padding + Z.of_nat (length first2) in
  do newImg <- make [] (Z.of_nat height);
  forRange (length newImg)
    (fun i newImg =>
       do row <- make 0 width;
       do row1 <- at_ img1 i;
       let row := copy row row1 in
       let lo := Z.of_nat (length row1) + padding + 1 in
       do tail <- sliceFrom row lo;
       do row2 <- at_ img2 i;
       let row := take (Z.to_nat lo) row ++ copy tail row2 in
       store newImg i row)
    newImg.

(** An [image.RGBA]: rows of (R, G, B, A). *)
Abbreviation Image := (list (list (Z * Z * Z * Z))).

Definition rgbToPNG (matrix : Matrix) : result Image :=
  let height := length matrix in
  do first <- at_ matrix 0;
  let width := (length first / 3)%nat in
  forRange height
    (fun y img =>
       forRange width
         (fun x img =>
            do row <- at_ matrix y;
            do r <- at_ row (x * 3);
            do g <- at_ row (x * 3 + 1);
            do b <- at_ row (x * 3 + 2);
            do irow <- at_ img y;
            do irow <- store irow x (r, g, b, 255);
            store img y irow)
         img)
    (replicate height (replicate width (0, 0, 0, 0))).

(** ** Pixel-dump parser: [ppmToMatrix], [readNextValue] (imgutils.go, lines 81-184)

    The reader is the string of bytes not yet consumed; a read past its end
    is [io.EOF].  [strings.TrimSpace], [strings.Split] and [strconv.Atoi] are
    Go's standard library, modelled on ASCII input: on a header line that
    starts or ends with a byte above 127 Go's [TrimSpace] decodes UTF-8 and
    also strips the Unicode spaces, and [string(char)] in [readNextValue]
    turns such a byte into two; [Atoi] rejects the value either way. *)

Local Open Scope string_scope.

Definition byteOf (c : ascii) : Z := Z.of_N (N_of_ascii c).

Definition wrap64 (x : Z) : Z := (x + 2 ^ 63) mod 2 ^ 64 - 2 ^ 63.

(** [byte(x)] for an [int]: the low eight bits. *)
Definition byte (x : Z) : Z := x mod 256.

(** [a / b] on [int]: a panic when [b] is zero, truncation toward zero
    otherwise. *)
Definition intDiv (a b : Z) : result Z :=
  if (b =? 0)%Z then Panic DivideByZero else Ok (wrap64 (Z.quot a b)).

(** [reader.ReadString('\n')]: the bytes up to and including the first
    newline; [io.EOF] when there is none. *)
Fixpoint ReadString (rd : string) : result (string * string) :=
  match rd with
  | EmptyString => Err ErrEOF
  | String c rd' =>
      if Ascii.eqb c "010" then Ok (String c EmptyString, rd')
      else do '(line, rest) <- ReadString rd'; Ok (String c line, rest)
  end.

Definition isSpace (c : ascii) : bool :=
  existsb (Ascii.eqb c) ["009"; "010"; "011"; "012"; "013"; " "]%char.

Fixpoint trimLeft (s : string) : string :=
  match s with
  | String c s' => if isSpace c then trimLeft s' else s
  | EmptyString => EmptyString
  end.

Definition reverse (s : string) : string :=
  string_of_list_ascii (rev (list_ascii_of_string s)).

Definition TrimSpace (s : string) : string :=
  reverse (trimLeft (reverse (trimLeft s))).

(** [strings.Split(s, " ")]. *)
Fixpoint splitOnSpace (cur s : string) : list string :=
  match s with
  | EmptyString => [cur]
  | String c s' =>
      if Ascii.eqb c " " then cur :: splitOnSpace EmptyString s'
      else splitOnSpace (cur ++ String c EmptyString) s'
  end.

Definition Split (s : string) : list string := splitOnSpace EmptyString s.

Definition digitOf (c : ascii) : option Z :=
  let n := byteOf c in
  if ((48 <=? n) && (n <=? 57))%Z then Some (n - 48) else None.

Fixpoint digits (acc : Z) (s : string) : option Z :=
  match s with
  | EmptyString => Some acc
  | String c s' =>
      match digitOf c with
      | Some d => digits (acc * 10 + d) s'
      | None => None
      end
  end.

(** [strconv.Atoi]: an optional sign, one decimal digit or more, a value that
    fits an [int]. *)
Definition Atoi (s : string) : result Z :=
  let '(neg, body) :=
    match s with
    | String "-" s' => (true, s')
    | String "+" s' => (false, s')
    | _ => (false, s)
    end in
  match body with
  | EmptyString => Err (ErrAtoi s)
  | _ =>
      match digits 0 body with
      | Some n =>
          let v := if neg then - n else n in
          if ((- 2 ^ 63 <=? v) && (v <? 2 ^ 63))%Z then Ok v else Err (ErrAtoi s)
      | None => Err (ErrAtoi s)
      end
  end.

(** [readNextValue]: the next run of bytes other than space, newline and
    tab; [value] is what the loop has gathered so far. *)
Fixpoint readNextValue (value : string) (reader : string) : result (string * string) :=
  match reader with
  | EmptyString =>
      if String.eqb value "" then Err ErrEOF else Ok (value, EmptyString)
  | String char reader' =>
      if Ascii.eqb char " " || Ascii.eqb char "010" || Ascii.eqb char "009" then
        if negb (String.eqb value "") then Ok (value, reader')
        else readNextValue value reader'
      else readNextValue (value ++ String char EmptyString) reader'
  end.

(** One sample: [binary.Read] of a byte, or the next text value through
    [strconv.Atoi]. *)
Definition readSample (isBinary : bool) (reader : string) : result (Z * string) :=
  if isBinary then
    match reader with
    | EmptyString => Err ErrEOF
    | String b reader' => Ok (byteOf b, reader')
    end
  else
    do '(a, reader') <- readNextValue "" reader;
    do color <- Atoi a;
    Ok (color, reader').

(** The header: the format tag, the size line and the line of the maximum
    sample value. *)
Definition readHeader (reader : string) : result (bool * Z * Z * Z * string) :=
  do '(format, reader) <- ReadString reader;
  let format := TrimSpace format in
  do isBinary <- (if String.eqb format "P3" then Ok false
                  else if String.eqb format "P6" then Ok true
                  else Err (ErrUnsupportedFormat format));
  do '(sizeStr, reader) <- ReadString reader;
  let sizeParts := Split (TrimSpace sizeStr) in
  if negb (length sizeParts =? 2)%nat then Err (ErrInvalidSize sizeStr)
  else
    do s0 <- at_ sizeParts 0;
    do width <- Atoi s0;
    do s1 <- at_ sizeParts 1;
    do height <- Atoi s1;
    do '(maxColorStr, reader) <- ReadString reader;
    do maxColor <- Atoi (TrimSpace maxColorStr);
    Ok (isBinary, width, height, maxColor, reader).

(** The pixel data: [height] rows of [width*3] samples, each stored as
    [byte(color * 255 / maxColor)]. *)
Definition readPixels (isBinary : bool) (width height maxColor : Z) (reader : string)
  : result (Matrix * string) :=
  do pixels <- make [] height;
  forRange (Z.to_nat height)
    (fun y '(pixels, reader) =>
       do row <- make 0 (wrap64 (width * 3));
       do pixels <- store pixels y row;
       forRange (Z.to_nat width)
         (fun x st =>
            forRange 3
              (fun i '(pixels, reader) =>
                 do '(color, reader) <- readSample isBinary reader;
                 do row <- at_ pixels y;
                 do scaled <- intDiv (wrap64 (color * 255)) maxColor;
                 do row <- store row (x * 3 + i) (byte scaled);
                 do pixels <- store pixels y row;
                 Ok (pixels, reader))
              st)
         (pixels, reader))
    (pixels, reader).

Definition ppmToMatrix (rd : string) : result Matrix :=
  do '(isBinary, width, height, maxColor, reader) <- readHeader rd;
  do '(pixels, _) <- readPixels isBinary width height maxColor reader;
  Ok pixels.

(** ** Page orchestrator: [EqualPDFs] (pdfcomp/pdfcomp.go, lines 31-128)

    [PageCount], [PdfToPPM] and [BuildPDF] wrap pdfcpu and the [pdftoppm]
    process, [os.Create] and [png.Encode] the file system and the PNG
    encoder: they are the collaborators of the orchestrator, taken as
    parameters.  Every call to one of them is recorded, in order, in the
    trace the orchestrator returns beside its result. *)

Local Close Scope string_scope.

Record PageFile : Type := mkPageFile { pageNum : Z; filename : string }.

Inductive Writer : Type := writer (name : string).

Record Collaborators : Type := {
  PageCount : string -> result Z;
  PdfToPPM : string -> Z -> Z -> result string;
  osCreate : string -> result unit;
  pngEncode : string -> Image -> result unit;
  BuildPDF : list PageFile -> Writer -> result unit
}.

Inductive event : Type :=
  | EvPageCount (file : string)
  | EvPdfToPPM (file : string) (page resolution : Z)
  | EvCreate (file : string)
  | EvEncode (file : string) (img : Image)
  | EvBuildPDF (imageFiles : list PageFile) (w : Writer).

(** A computation that calls collaborators: a result and the calls made. *)
Definition M (A : Type) : Type := list event -> result A * list event.

Definition ret {A} (a : A) : M A := fun t => (Ok a, t).

Definition lift {A} (r : result A) : M A := fun t => (r, t).

Definition call {A} (ev : event) (r : result A) : M A := fun t => (r, t ++ [ev]).

Definition bindM {A B} (m : M A) (k : A -> M B) : M B :=
  fun t =>
    match m t with
    | (Ok a, t') => k a t'
    | (Err e, t') => (Err e, t')
    | (Panic p, t') => (Panic p, t')
    end.

Notation "'let*' x := m 'in' k" := (bindM m (fun x => k))
  (at level 10, x name, m at level 100, k at level 200).
Notation "'let*' ' p := m 'in' k" := (bindM m (fun x => match x with p => k end))
  (at level 10, p pattern, m at level 100, k at level 200).

(** [fmt.Errorf("...: %w", ..., err)] around a failing call. *)
Definition wrapErr {A} (f : error -> error) (r : result A) : result A :=
  match r with
  | Err e => Err (f e)
  | _ => r
  end.

(** [strconv.Itoa]. *)
Definition Itoa (n : Z) : string := NilZero.string_of_int (Z.to_int n).

Inductive control : Type := Continue | Break.

(** The body of the page loop, lines 61-115: [same] and [pngFiles] are the
    two variables the loop carries from page to page. *)
Definition comparePage (c : Collaborators) (file1 file2 : string) (images : bool)
    (pdf : option Writer) (resolution ratio : Z) (i : nat)
    (st : bool * list PageFile) : M (control * (bool * list PageFile)) :=
  let '(same, pngFiles) := st in
  let page := (Z.of_nat i + 1)%Z in
  let* ppm1 := call (EvPdfToPPM file1 page resolution) (PdfToPPM c file1 page resolution) in
  let* ppm2 := call (EvPdfToPPM file2 page resolution) (PdfToPPM c file2 page resolution) in
  let* mat1 := lift (ppmToMatrix ppm1) in
  let* mat2 := lift (ppmToMatrix ppm2) in
  let* '(thisSame, diff) := lift (equalImgMatrix mat1 mat2 (images || bool_decide (pdf ≠ None))) in
  let same := same && thisSame in
  if negb same && (images || bool_decide (pdf ≠ None)) then
    let* radius := lift (intDiv resolution ratio) in
    let* img1 := lift (diffImage mat1 diff radius) in
    let* radius := lift (intDiv resolution ratio) in
    let* img2 := lift (diffImage mat2 diff radius) in
    let* joined := lift (joinImages img1 img2 5) in
    let filename := (file1 ++ "-" ++ Itoa page ++ "-diff.png")%string in
    let* _ := call (EvCreate filename) (osCreate c filename) in
    let* pngJoined := lift (rgbToPNG joined) in
    let* _ := call (EvEncode filename pngJoined)
                (wrapErr (ErrWritePng file1) (pngEncode c filename pngJoined)) in
    let pngFiles := if bool_decide (pdf ≠ None)
                    then pngFiles ++ [mkPageFile page filename] else pngFiles in
    ret (Continue, (same, pngFiles))
  else if negb same then ret (Break, (same, pngFiles))
  else ret (Continue, (same, pngFiles)).

(** [for i := range pages1 { ... }], with its [break]. *)
Fixpoint pageLoop (body : nat -> bool * list PageFile -> M (control * (bool * list PageFile)))
    (pages : list nat) (st : bool * list PageFile) : M (bool * list PageFile) :=
  match pages with
  | [] => ret st
  | i :: pages' =>
      let* '(ctl, st') := body i st in
      match ctl with
      | Break => ret st'
      | Continue => pageLoop body pages' st'
      end
  end.

Definition EqualPDFs (c : Collaborators) (file1 file2 : string) (images : bool)
    (pdf : option Writer) (resolution ratio : Z) : M bool :=
  if String.eqb file1 file2 then ret true
  else
    let* pages1 := call (EvPageCount file1) (wrapErr (ErrPageCount file1) (PageCount c file1)) in
    let* pages2 := call (EvPageCount file2) (wrapErr (ErrPageCount file2) (PageCount c file2)) in
    if negb (pages1 =? pages2)%Z && negb images then ret false
    else
      let* '(same, pngFiles) :=
        pageLoop (comparePage c file1 file2 images pdf resolution ratio)
                 (seq 0 (Z.to_nat pages1)) (true, []) in
      let* _ := match pdf with
                | Some w => if negb same
                            then call (EvBuildPDF pngFiles w) (BuildPDF c pngFiles w)
                            else ret tt
                | None => ret tt
                end in
      if same then ret true else ret false.

(** * Specification-level definitions *)

(** ** The diff engine in closed form *)

(** The pixel at column [x] of a row: its three channel bytes. *)
Definition pixel (row : list Z) (x : nat) : list Z := take 3 (drop (x * 3) row).

Definition pixelsDiffer (row1 row2 : list Z) : list bool :=
  map (fun x => negb (bytesEqual (pixel row1 x) (pixel row2 x)))
      (seq 0 (length row1 / 3)).

(** Equal height and, at every row index, equal row byte-length. *)
Definition sameShape (mat1 mat2 : Matrix) : Prop :=
  Forall2 (fun row1 row2 => length row1 = length row2) mat1 mat2.


(** The bytes of a string, for test vectors. *)
Definition bytesOf (s : string) : list Z :=
  map (fun c => Z.of_N (N_of_ascii c)) (list_ascii_of_string s).

(** A digest in hexadecimal. *)
Definition hex (digest : list Z) : string :=
  let digit d := match nth_error (list_ascii_of_string "0123456789abcdef") (Z.to_nat d) with
                 | Some c => c
                 | None => "?"%char
                 end in
  string_of_list_ascii (flat_map (fun b => [digit (b / 16); digit (b mod 16)]) digest).

(** Unequal height, or unequal row byte-length at some row index. *)
Definition dimensionsDiffer (mat1 mat2 : Matrix) : Prop :=
  length mat1 ≠ length mat2 \/
  exists y row1 row2,
    mat1 !! y = Some row1 /\ mat2 !! y = Some row2 /\ length row1 ≠ length row2.

(** A matrix of two rows of nine bytes and one of three rows of six bytes
    holding the same eighteen bytes. *)
Definition mat2x9 : Matrix :=
  [ [1; 2; 3; 4; 5; 6; 7; 8; 9]; [10; 11; 12; 13; 14; 15; 16; 17; 18] ].
Definition mat3x6 : Matrix :=
  [ [1; 2; 3; 4; 5; 6]; [7; 8; 9; 10; 11; 12]; [13; 14; 15; 16; 17; 18] ].

(** *** A file system of rendered documents, for concrete runs

    A document is the list of its pages' pixel dumps.  The renderer fails on
    a page the document does not have, and on a file that does not exist;
    creating and encoding files and building the PDF succeed. *)

Definition newline : string := String "010" EmptyString.

(** A text pixel dump of one pixel, maximum sample value 255. *)
Definition onePixel (r g b : string) : string :=
  ("P3" ++ newline ++ "1 1" ++ newline ++ "255" ++ newline
   ++ r ++ " " ++ g ++ " " ++ b ++ newline)%string.

Fixpoint findFile (files : list (string * list string)) (name : string) : option (list string) :=
  match files with
  | [] => None
  | (n, pages) :: files' => if String.eqb n name then Some pages else findFile files' name
  end.

Definition rendered (files : list (string * list string)) : Collaborators :=
  {| PageCount file :=
       match findFile files file with
       | Some pages => Ok (Z.of_nat (length pages))
       | None => Err (ErrExternal "pdfcpu: PDFInfo: missing rs")
       end;
     PdfToPPM file page resolution :=
       match findFile files file with
       | Some pages =>
           if (1 <=? page)%Z then
             match pages !! Z.to_nat (page - 1) with
             | Some ppm => Ok ppm
             | None => Err (ErrExternal "pdftoppm failed")
             end
           else Err (ErrExternal "pdftoppm failed")
       | None => Err (ErrExternal "pdftoppm failed")
       end;
     osCreate _ := Ok tt;
     pngEncode _ _ := Ok tt;
     BuildPDF _ _ := Ok tt |}.

Definition black : string := onePixel "0" "0" "0".
Definition white : string := onePixel "255" "255" "255".
Definition grey : string := onePixel "9" "9" "9".

(** Every row of the matrix has [w] bytes. *)
Definition rectangular (w : nat) (mat : Matrix) : Prop :=
  Forall (fun row => length row = w) mat.

(** A text pixel dump of one pixel with samples 5, 5, 5 whose header
    declares a maximum sample value of 0, and an empty image (0 by 0) with
    the same declaration. *)
Definition dumpMaxZero : string :=
  ("P3" ++ newline ++ "1 1" ++ newline ++ "0" ++ newline ++ "5 5 5" ++ newline)%string.
Definition dumpEmptyMaxZero : string :=
  ("P3" ++ newline ++ "0 0" ++ newline ++ "0" ++ newline)%string.

(** *** Words for the page loop *)

(** The page number of the loop index [i]. *)
Definition pageOf (i : nat) : Z := Z.of_nat i + 1.

(** The matrix of a page: rendered by the collaborator, then parsed. *)
Definition renderedPage (c : Collaborators) (file : string) (page resolution : Z)
  : result Matrix :=
  do ppm <- PdfToPPM c file page resolution;
  ppmToMatrix ppm.

(** Both renderings of the page exist and their comparison, no mask
    requested, returns [same]. *)
Definition pageCompares (c : Collaborators) (file1 file2 : string) (resolution : Z)
    (page : Z) (same : bool) : Prop :=
  exists mat1 mat2,
    renderedPage c file1 page resolution = Ok mat1 /\
    renderedPage c file2 page resolution = Ok mat2 /\
    equalImgMatrix mat1 mat2 false = Ok (same, []).

(** The renderer calls for the pages of the given indices, in order: first
    document, then second document. *)
Definition renders (file1 file2 : string) (resolution : Z) (indices : list nat) : list event :=
  flat_map (fun i => [EvPdfToPPM file1 (pageOf i) resolution;
                      EvPdfToPPM file2 (pageOf i) resolution]) indices.

(** Two documents of two pages: the first pages differ, the second pages
    are the same pixel dump. *)
Definition twoPages : Collaborators :=
  rendered [("a.pdf"%string, [black; grey]); ("b.pdf"%string, [white; grey])].

(** A document of one page and a document of two pages. *)
Definition oneAndTwo : Collaborators :=
  rendered [("one.pdf"%string, [black]); ("two.pdf"%string, [black; grey])].

(** Two documents of three pages that differ on page 2 only. *)
Definition threePages : Collaborators :=
  rendered [("a.pdf"%string, [grey; black; grey]); ("b.pdf"%string, [grey; white; grey])].

(** *** Words for the annotator *)

(** The disc of radius [radius]: the membership test of [circle]. *)
Definition inDisc (radius dx dy : Z) : bool := dx * dx + dy * dy <=? radius * radius.

(** The stamp [circle] builds, in closed form. *)
Definition disc (radius : Z) : Matrix :=
  let size := Z.to_nat (2 * radius + 1) in
  map (fun y =>
         map (fun x => if inDisc radius (Z.of_nat x - radius) (Z.of_nat y - radius)
                       then 255 else 0)
             (seq 0 size))
      (seq 0 size).

(** [highlightPixel] on a pixel given as its three bytes. *)
Definition blend (p : list Z) : list Z :=
  match p with
  | [r; g; b] => let '(r', g', b') := highlightPixel r g b in [r'; g'; b']
  | _ => p
  end.

(** The mask is true at row [ym], column [xm]. *)
Definition marked (diff : Mask) (ym xm : nat) : Prop :=
  exists drow, diff !! ym = Some drow /\ drow !! xm = Some true.

(** Pixel [(y, x)] lies in the disc stamped for the mask entry [(ym, xm)]. *)
Definition stamps (radius : Z) (ym xm y x : nat) : Prop :=
  inDisc radius (Z.of_nat x - Z.of_nat xm) (Z.of_nat y - Z.of_nat ym) = true.

(** Pixel [(y, x)] lies in the disc of some true entry of the mask. *)
Definition covered (diff : Mask) (radius : Z) (y x : nat) : Prop :=
  exists ym xm, marked diff ym xm /\ stamps radius ym xm y x.

(** [cur] is [img] with the pixels selected by [hit] blended once, within
    the [w / 3] whole pixels of a row, and nothing else changed. *)
Definition annotated (w : nat) (hit : nat -> nat -> Prop) (img cur : Matrix) : Prop :=
  Forall2 (fun row crow => length crow = length row) img cur /\
  forall y x row crow,
    img !! y = Some row -> cur !! y = Some crow ->
    (hit y x -> (x < w / 3)%nat -> pixel crow x = blend (pixel row x)) /\
    (~ (hit y x /\ (x < w / 3)%nat) -> pixel crow x = pixel row x).

(** One row of three pixels (10, 20, 30) and a mask true at its first and
    last pixel: with radius 1 the two discs overlap on the middle pixel. *)
Definition threeInARow : Matrix := [[10; 20; 30; 10; 20; 30; 10; 20; 30]].
Definition maskEnds : Mask := [[true; false; true]].

(** An image of two by two pixels and a mask true at its corner (0, 0). *)
Definition twoByTwo : Matrix := [[10; 20; 30; 40; 50; 60]; [70; 80; 90; 100; 110; 120]].
Definition maskCorner : Mask := [[true; false]; [false; false]].

(** *** Words for the further properties *)

(** Every byte of the matrix is a byte. *)
Definition isByte (b : Z) : Prop := 0 <= b <= 255.
Definition bytesInRange (mat : Matrix) : Prop := Forall (Forall isByte) mat.

(** [marked] and [covered] as computations. *)
Definition markedb (diff : Mask) (ym xm : nat) : bool :=
  match diff !! ym with
  | Some drow => match drow !! xm with Some true => true | _ => false end
  | None => false
  end.

Definition coveredb (diff : Mask) (radius : Z) (y x : nat) : bool :=
  existsb (fun ym =>
             existsb (fun xm =>
                        markedb diff ym xm
                        && inDisc radius (Z.of_nat x - Z.of_nat xm) (Z.of_nat y - Z.of_nat ym))
                     (seq 0 (length (default [] (diff !! ym)))))
          (seq 0 (length diff)).

(** *** Words for the parser *)

(** The separators of [readNextValue]: space, newline, tab. *)
Definition isSeparator (c : ascii) : bool :=
  (Ascii.eqb c " " || Ascii.eqb c "010" || Ascii.eqb c "009")%char.

Definition separatorFree (s : string) : Prop :=
  forallb (fun c => negb (isSeparator c)) (list_ascii_of_string s) = true.

(** [n] samples read one after the other. *)
Fixpoint readSamples (n : nat) (isBinary : bool) (reader : string)
  : result (list Z * string) :=
  match n with
  | O => Ok ([], reader)
  | S n' =>
      do '(color, reader) <- readSample isBinary reader;
      do '(colors, reader) <- readSamples n' isBinary reader;
      Ok (color :: colors, reader)
  end.

(** What the pixel loop stores for a sample: [byte(color * 255 / maxColor)]. *)
Definition scale (maxColor color : Z) : Z :=
  byte (wrap64 (Z.quot (wrap64 (color * 255)) maxColor)).

(** The rows of a matrix of [h] rows of [w] bytes taken from a list. *)
Definition rowsOf (h w : nat) (vs : list Z) : Matrix :=
  map (fun y => take w (drop (y * w) vs)) (seq 0 h).

(** [n] iterations from index [a], each taking [m] samples off the list. *)
Fixpoint consume {St} (F : nat -> list Z -> St -> St) (m a n : nat)
    (vs : list Z) (st : St) : St :=
  match n with
  | O => st
  | S n' => consume F m (S a) n' (drop m vs) (F a (take m vs) st)
  end.

(** [vals] written over [row] from offset [off]. *)
Definition writeAt {A} (off : nat) (vals row : list A) : list A :=
  take off row ++ vals ++ drop (off + length vals) row.

(** The result of a computation mapped when it is [Ok]. *)
Definition mapOk {A B} (f : A -> B) (r : result A) : result B :=
  match r with
  | Ok a => Ok (f a)
  | Err e => Err e
  | Panic p => Panic p
  end.

(** Row [y] of the matrix with the block number [k] of [m] samples, mapped
    by [f], written from offset [base + k * m]. *)
Definition writeBlock (y : nat) (f : Z -> Z) (base m k : nat) (vs : list Z)
    (st : Matrix) : Matrix :=
  <[y := writeAt (base + k * m) (map f vs) (st !!! y)]> st.

(** A text body: every value followed by one space. *)
Definition textOf (toks : list string) : string :=
  fold_right (fun tok s => (tok ++ String " " s)%string) EmptyString toks.

(** A value of the text variant: not empty, no separator in it, and the
    decimal notation of [v] for [strconv.Atoi]. *)
Definition denotes (tok : string) (v : Z) : Prop :=
  separatorFree tok /\ tok ≠ EmptyString /\ Atoi tok = Ok v.

(** The shape of a parsed image: [h] rows of [w] bytes. *)
Definition wellFormed (h w : nat) (mat : Matrix) : Prop :=
  length mat = h /\ rectangular w mat /\ bytesInRange mat.

(** The rows of [pixels] before row [y] are complete: [w] bytes each. *)
Definition rowsDone (h w y : nat) (pixels : Matrix) : Prop :=
  length pixels = h /\
  forall j row, (j < y)%nat -> pixels !! j = Some row ->
    length row = w /\ Forall isByte row.

(** Both renderings of the page exist and parse, and the two matrices have
    the same digest. *)
Definition pageMatches (c : Collaborators) (file1 file2 : string) (resolution : Z)
    (page : Z) : Prop :=
  exists mat1 mat2,
    renderedPage c file1 page resolution = Ok mat1 /\
    renderedPage c file2 page resolution = Ok mat2 /\
    hash mat1 = hash mat2.



(** * Proofs *)

(** ** Reasoning about loops *)

(** A loop whose every iteration succeeds and re-establishes the invariant
    [P], indexed by the number of iterations done, succeeds with [P] at the
    end. *)
Lemma forEach_invariant {A St} (P : nat -> St -> Prop) (xs : list A)
    (body : A -> St -> result St) (s : St) :
  P 0%nat s ->
  (forall i x s, xs !! i = Some x -> P i s ->
     exists s', body x s = Ok s' /\ P (S i) s') ->
  exists s', forEach xs body s = Ok s' /\ P (length xs) s'.
Proof.
  revert P s. induction xs as [|x xs IH]; intros P s H0 Hstep; simpl.
  - eauto.
  - destruct (Hstep 0%nat x s eq_refl H0) as (s1 & -> & H1). simpl.
    apply (IH (fun i => P (S i))); [done|].
    intros i y t Hy Ht. exact (Hstep (S i) y t Hy Ht).
Qed.

(** A loop that leaves early: the iterations before [k] succeed under the
    invariant, the one at [k] returns [r], which is not [Ok]. *)
Lemma forEach_leaves {A St} (P : nat -> St -> Prop) (xs : list A)
    (body : A -> St -> result St) (s : St) (k : nat) (xk : A) (r : result St) :
  P 0%nat s ->
  xs !! k = Some xk ->
  (forall i x s, (i < k)%nat -> xs !! i = Some x -> P i s ->
     exists s', body x s = Ok s' /\ P (S i) s') ->
  (forall s, P k s -> body xk s = r) ->
  (forall s', r <> Ok s') ->
  forEach xs body s = r.
Proof.
  revert P s k. induction xs as [|x xs IH]; intros P s k H0 Hk Hstep Hlast Hr.
  - discriminate.
  - destruct k as [|k]; simpl in *.
    + injection Hk as ->. rewrite (Hlast s H0).
      destruct r; simpl; try done. by destruct (Hr a).
    + destruct (Hstep 0%nat x s ltac:(lia) eq_refl H0) as (s1 & -> & H1). simpl.
      apply (IH (fun i => P (S i)) s1 k); try done.
      intros i y t Hi Hy Ht. apply (Hstep (S i) y t); [lia|done|done].
Qed.

Lemma lookup_seq_0 (n i : nat) (x : nat) : seq 0 n !! i = Some x -> x = i /\ (i < n)%nat.
Proof. intros H. apply lookup_seq in H. lia. Qed.

(** A loop that fills [acc[i]] with [f i] and may rely on the entries from
    [i] on being those of [init]. *)
Lemma forRange_tabulate_from {A} (n : nat) (body : nat -> list A -> result (list A))
    (f : nat -> A) (init : list A) :
  length init = n ->
  (forall i acc, (i < n)%nat -> length acc = n ->
     (forall j, (i <= j)%nat -> acc !! j = init !! j) ->
     body i acc = store acc i (f i)) ->
  forRange n body init = Ok (map f (seq 0 n)).
Proof.
  intros Hlen Hbody. unfold forRange.
  destruct (forEach_invariant
              (fun i acc => length acc = n /\ take i acc = map f (seq 0 i) /\
                            forall j, (i <= j)%nat -> acc !! j = init !! j)
              (seq 0 n) body init)
    as (acc & -> & Hn & Hacc & _).
  - split; [done|]. split; [by rewrite take_0|done].
  - intros i x acc Hx (Hl & Ht & Hrest). apply lookup_seq_0 in Hx as [-> Hi].
    rewrite (Hbody i acc Hi Hl Hrest). unfold store.
    rewrite decide_True by lia. eexists; split; [done|].
    split; [by rewrite length_insert|]. split.
    + rewrite seq_S, map_app. cbn [map].
      rewrite (take_S_r _ _ (f i)) by (apply list_lookup_insert_eq; lia).
      by rewrite take_insert_ge, Ht by lia.
    + intros j Hj. rewrite list_lookup_insert_ne by lia. apply Hrest. lia.
  - rewrite length_seq in Hacc. rewrite <- Hacc. f_equal.
    symmetry. apply take_ge. lia.
Qed.

(** A loop that fills [acc[i]] with [f i], for [i] in [range n]. *)
Lemma forRange_tabulate {A} (n : nat) (body : nat -> list A -> result (list A))
    (f : nat -> A) (init : list A) :
  length init = n ->
  (forall i acc, (i < n)%nat -> length acc = n -> body i acc = store acc i (f i)) ->
  forRange n body init = Ok (map f (seq 0 n)).
Proof.
  intros Hlen Hbody. apply forRange_tabulate_from; [done|].
  intros i acc Hi Hacc _. by apply Hbody.
Qed.

(** ** The diff engine in closed form *)

Lemma pixel_in_row (row : list Z) (x : nat) :
  (x < length row / 3)%nat -> (x * 3 <= (x + 1) * 3 <= length row)%nat.
Proof.
  intros Hx. pose proof (Nat.Div0.mul_div_le (length row) 3).
  assert (3 * (x + 1) <= 3 * (length row / 3))%nat by lia. lia.
Qed.

Lemma slice_pixel (row : list Z) (x : nat) :
  (x < length row / 3)%nat -> slice row (x * 3) ((x + 1) * 3) = Ok (pixel row x).
Proof.
  intros Hx. unfold slice, pixel. rewrite decide_True by by apply pixel_in_row.
  do 2 f_equal. lia.
Qed.

Lemma diffRow_ok (row1 row2 : list Z) :
  length row1 = length row2 -> diffRow row1 row2 = Ok (pixelsDiffer row1 row2).
Proof.
  intros Hlen. unfold diffRow, pixelsDiffer.
  apply forRange_tabulate; [by rewrite length_replicate|].
  intros x acc Hx _. rewrite !slice_pixel by (by rewrite <- ?Hlen). done.
Qed.

Lemma length_pixelsDiffer (row1 row2 : list Z) :
  length (pixelsDiffer row1 row2) = (length row1 / 3)%nat.
Proof. unfold pixelsDiffer. by rewrite length_map, length_seq. Qed.

Lemma lookup_pixelsDiffer (row1 row2 : list Z) (x : nat) :
  (x < length row1 / 3)%nat ->
  pixelsDiffer row1 row2 !! x = Some (negb (bytesEqual (pixel row1 x) (pixel row2 x))).
Proof.
  intros Hx. unfold pixelsDiffer. rewrite list_lookup_fmap.
  by rewrite lookup_seq_lt.
Qed.

Lemma diffMatrix_ok (mat1 mat2 : Matrix) :
  sameShape mat1 mat2 ->
  diffMatrix mat1 mat2 = Ok (zip_with pixelsDiffer mat1 mat2).
Proof.
  intros Hshape. unfold diffMatrix.
  assert (length mat1 = length mat2) as Hlen by (by eapply Forall2_length).
  rewrite decide_False by (intros ?; done).
  assert (zip_with pixelsDiffer mat1 mat2
          = map (fun y => pixelsDiffer (mat1 !!! y) (mat2 !!! y)) (seq 0 (length mat1))) as ->.
  { apply list_eq. intros y. rewrite lookup_zip_with, list_lookup_fmap.
    destruct (decide (y < length mat1)%nat) as [Hy|Hy].
    - rewrite lookup_seq_lt by done.
      destruct (lookup_lt_is_Some_2 mat1 y Hy) as [r1 H1].
      destruct (lookup_lt_is_Some_2 mat2 y ltac:(lia)) as [r2 H2].
      rewrite H1, H2. simpl.
      by rewrite (list_lookup_total_correct _ _ _ H1), (list_lookup_total_correct _ _ _ H2).
    - rewrite lookup_seq_ge by lia. rewrite (lookup_ge_None_2 mat1) by lia. done. }
  apply forRange_tabulate; [by rewrite length_replicate|].
  intros y acc Hy _. unfold at_.
  destruct (lookup_lt_is_Some_2 mat1 y Hy) as [r1 H1].
  destruct (lookup_lt_is_Some_2 mat2 y ltac:(lia)) as [r2 H2].
  rewrite H1, H2. cbn [bind].
  assert (length r1 = length r2) as Hrow
    by (exact (Forall2_lookup_lr _ mat1 mat2 y r1 r2 Hshape H1 H2)).
  rewrite decide_False by (intros ?; done).
  rewrite (diffRow_ok _ _ Hrow). cbn [bind].
  by rewrite (list_lookup_total_correct _ _ _ H1), (list_lookup_total_correct _ _ _ H2).
Qed.

(** ** Content hasher *)

(** The constants computed from the primes are the published ones. *)
Example sha256_constants :
  Sha256.K !! 0%nat = Some 0x428a2f98 /\ Sha256.K !! 63%nat = Some 0xc67178f2 /\
  length Sha256.K = 64%nat /\
  Sha256.H0 !! 0%nat = Some 0x6a09e667 /\ Sha256.H0 !! 7%nat = Some 0x5be0cd19.
Proof. repeat split. Qed.

(** The model of SHA-256 agrees with the published test vectors (FIPS 180-4,
    the empty message, one block, two blocks). *)
Example sha256_empty :
  hex (Sha256.sum256 []) = "e3b0c44298fc1c149afbf4c8996fb92427ae41e4649b934ca495991b7852b855"%string.
Proof. vm_compute. reflexivity. Qed.

Example sha256_abc :
  hex (Sha256.sum256 (bytesOf "abc"))
  = "ba7816bf8f01cfea414140de5dae2223b00361a396177a9cb410ff61f20015ad"%string.
Proof. vm_compute. reflexivity. Qed.

Example sha256_two_blocks :
  hex (Sha256.sum256 (bytesOf "abcdbcdecdefdefgefghfghighijhijkijkljklmklmnlmnomnopnopq"))
  = "248d6a61d20638b8e5c026930c3e6039a33ce45964ff2167f6ecedd419db06c1"%string.
Proof. vm_compute. reflexivity. Qed.

Lemma hash_concat (mat : Matrix) : hash mat = Ok (Sha256.sum256 (concat mat)).
Proof.
  unfold hash, forRange.
  destruct (forEach_invariant (St := Sha256.state)
              (fun i h => h = concat (take i mat))
              (seq 0 (length mat))
              (fun y h => do row <- at_ mat y; Sha256.Write h row) Sha256.New)
    as (h & -> & Hh).
  - by rewrite take_0.
  - intros i y h Hy ->. apply lookup_seq_0 in Hy as [-> Hi].
    destruct (lookup_lt_is_Some_2 mat i Hi) as [row Hrow].
    unfold at_. rewrite Hrow. cbn [bind]. unfold Sha256.Write.
    eexists; split; [done|].
    rewrite (take_S_r _ _ _ Hrow), concat_app. simpl. by rewrite app_nil_r.
  - rewrite length_seq, firstn_all in Hh. by subst.
Qed.

(** [equalImgMatrix] as a function of the two digests. *)
Lemma equalImgMatrix_unfold (mat1 mat2 : Matrix) (diff : bool) :
  equalImgMatrix mat1 mat2 diff =
  if bytesEqual (Sha256.sum256 (concat mat1)) (Sha256.sum256 (concat mat2))
  then Ok (true, [])
  else if diff then
    do _ <- at_ mat1 0;
    do _ <- at_ (match diffMatrix mat1 mat2 with Ok d => d | _ => [] end) 0;
    do d <- diffMatrix mat1 mat2;
    Ok (false, d)
  else Ok (false, []).
Proof. unfold equalImgMatrix. by rewrite !hash_concat. Qed.

Lemma equalImgMatrix_same_digest (mat1 mat2 : Matrix) (diff : bool) :
  concat mat1 = concat mat2 -> equalImgMatrix mat1 mat2 diff = Ok (true, []).
Proof.
  intros H. rewrite equalImgMatrix_unfold, H. unfold bytesEqual.
  by rewrite bool_decide_eq_true_2.
Qed.

(** ** Dimension mismatch in the diff engine *)

Lemma sameShape_lookup (mat1 mat2 : Matrix) :
  sameShape mat1 mat2 <-> ~ dimensionsDiffer mat1 mat2.
Proof.
  unfold sameShape, dimensionsDiffer. rewrite Forall2_lookup. split.
  - intros H [Hlen | (y & r1 & r2 & H1 & H2 & Hne)].
    + apply Hlen.
      eapply Forall2_length, Forall2_lookup, H.
    + specialize (H y). rewrite H1, H2 in H. by inversion H.
  - intros H y.
    destruct (mat1 !! y) as [r1|] eqn:H1, (mat2 !! y) as [r2|] eqn:H2.
    + constructor. destruct (decide (length r1 = length r2)); [done|].
      destruct H. right. eauto 6.
    + destruct H. left. apply lookup_lt_Some in H1. apply lookup_ge_None in H2. lia.
    + destruct H. left. apply lookup_lt_Some in H2. apply lookup_ge_None in H1. lia.
    + constructor.
Qed.

(** With equal heights and different shapes there is a first row at which
    the byte-lengths differ. *)
Lemma first_mismatch (mat1 mat2 : Matrix) :
  length mat1 = length mat2 ->
  ~ sameShape mat1 mat2 ->
  exists k row1 row2,
    mat1 !! k = Some row1 /\ mat2 !! k = Some row2 /\ length row1 ≠ length row2 /\
    sameShape (take k mat1) (take k mat2).
Proof.
  revert mat2. induction mat1 as [|r1 mat1 IH]; intros [|r2 mat2] Hlen Hns; try discriminate.
  - destruct Hns. constructor.
  - destruct (decide (length r1 = length r2)) as [Heq|Hne].
    + destruct (IH mat2) as (k & row1 & row2 & H1 & H2 & Hne & Hpre).
      * simpl in Hlen. lia.
      * intros Hs. apply Hns. by constructor.
      * exists (S k), row1, row2. repeat split; try done. simpl. by constructor.
    + exists 0%nat, r1, r2. repeat split; try done. constructor.
Qed.

Lemma diffMatrix_height (mat1 mat2 : Matrix) :
  length mat1 ≠ length mat2 -> diffMatrix mat1 mat2 = Err ErrHeight.
Proof. intros H. unfold diffMatrix. by rewrite decide_True. Qed.

Lemma diffMatrix_width (mat1 mat2 : Matrix) (k : nat) (row1 row2 : list Z) :
  length mat1 = length mat2 ->
  mat1 !! k = Some row1 -> mat2 !! k = Some row2 -> length row1 ≠ length row2 ->
  sameShape (take k mat1) (take k mat2) ->
  diffMatrix mat1 mat2 = Err (ErrWidthAtRow k).
Proof.
  intros Hlen H1 H2 Hne Hpre. unfold diffMatrix.
  rewrite decide_False by (intros ?; done). unfold forRange.
  pose proof (lookup_lt_Some _ _ _ H1) as Hk.
  apply (forEach_leaves (fun i (acc : Mask) => length acc = length mat1)) with (k := k) (xk := k).
  - by rewrite length_replicate.
  - by apply lookup_seq_lt.
  - intros i y acc Hi Hy Hacc. apply lookup_seq_0 in Hy as [-> _].
    destruct (lookup_lt_is_Some_2 mat1 i ltac:(lia)) as [r1 Hr1].
    destruct (lookup_lt_is_Some_2 mat2 i ltac:(lia)) as [r2 Hr2].
    unfold at_. rewrite Hr1, Hr2. cbn [bind].
    assert (length r1 = length r2) as Hrow.
    { apply (Forall2_lookup_lr _ (take k mat1) (take k mat2) i r1 r2 Hpre);
        by rewrite lookup_take_lt. }
    rewrite decide_False by (intros ?; done).
    rewrite (diffRow_ok _ _ Hrow). cbn [bind]. unfold store.
    rewrite decide_True by lia. eexists; split; [done|]. by rewrite length_insert.
  - intros acc _. unfold at_. rewrite H1, H2. cbn [bind]. by rewrite decide_True.
  - done.
Qed.

(** ** The mask of the diff engine *)

Lemma lookup_pixel (row : list Z) (x c : nat) :
  (c < 3)%nat -> pixel row x !! c = row !! (x * 3 + c)%nat.
Proof. intros Hc. unfold pixel. by rewrite lookup_take_lt, lookup_drop. Qed.

Lemma pixel_eq_iff (row1 row2 : list Z) (x : nat) :
  pixel row1 x = pixel row2 x <->
  forall c, (c < 3)%nat -> row1 !! (x * 3 + c)%nat = row2 !! (x * 3 + c)%nat.
Proof.
  split.
  - intros H c Hc. by rewrite <- !lookup_pixel, H.
  - intros H. apply list_eq. intros c. destruct (decide (c < 3)%nat) as [Hc|Hc].
    + rewrite !lookup_pixel by done. auto.
    + unfold pixel. by rewrite !lookup_take_ge by lia.
Qed.

Lemma pixel_neq_iff (row1 row2 : list Z) (x : nat) :
  pixel row1 x ≠ pixel row2 x <->
  exists c, (c < 3)%nat /\ row1 !! (x * 3 + c)%nat ≠ row2 !! (x * 3 + c)%nat.
Proof.
  rewrite pixel_eq_iff. split.
  - intros H.
    destruct (decide (row1 !! (x * 3 + 0)%nat = row2 !! (x * 3 + 0)%nat)) as [H0|H0];
      [|exists 0%nat; split; [lia|done]].
    destruct (decide (row1 !! (x * 3 + 1)%nat = row2 !! (x * 3 + 1)%nat)) as [H1|H1];
      [|exists 1%nat; split; [lia|done]].
    destruct (decide (row1 !! (x * 3 + 2)%nat = row2 !! (x * 3 + 2)%nat)) as [H2|H2];
      [|exists 2%nat; split; [lia|done]].
    destruct H. intros c Hc.
    destruct c as [|[|[|c]]]; try done. lia.
  - intros (c & Hc & Hne) H. by apply Hne, H.
Qed.

Lemma pixelsDiffer_sym (row1 row2 : list Z) :
  length row1 = length row2 -> pixelsDiffer row1 row2 = pixelsDiffer row2 row1.
Proof.
  intros Hlen. unfold pixelsDiffer. rewrite Hlen. apply map_ext. intros x.
  unfold bytesEqual. f_equal. apply bool_decide_ext. split; congruence.
Qed.

Lemma pixelsDiffer_refl (row : list Z) :
  pixelsDiffer row row = replicate (length row / 3) false.
Proof.
  unfold pixelsDiffer. apply list_eq. intros x.
  rewrite list_lookup_fmap.
  destruct (decide (x < length row / 3)%nat) as [Hx|Hx].
  - rewrite lookup_seq_lt, lookup_replicate_2 by done. simpl.
    unfold bytesEqual. by rewrite bool_decide_eq_true_2.
  - rewrite lookup_seq_ge by lia. symmetry. apply lookup_replicate_None. lia.
Qed.

Lemma sameShape_refl (mat : Matrix) : sameShape mat mat.
Proof. unfold sameShape. induction mat; by constructor. Qed.

Lemma sameShape_sym (mat1 mat2 : Matrix) : sameShape mat1 mat2 -> sameShape mat2 mat1.
Proof. unfold sameShape. induction 1; by constructor. Qed.

(** C8. For two matrices of equal dimensions the diff engine returns a mask
    with one entry per pixel: the entry at row [y], column [x] is true
    exactly when one of the three channel bytes of pixel [(y, x)] differs
    between the two matrices.  The mask of a matrix against itself is false
    everywhere, and the mask does not depend on the order of the two
    matrices. *)
Theorem diffMatrix_mask (mat1 mat2 : Matrix) :
  sameShape mat1 mat2 ->
  (exists mask,
      diffMatrix mat1 mat2 = Ok mask /\
      length mask = length mat1 /\
      forall y row1 row2,
        mat1 !! y = Some row1 -> mat2 !! y = Some row2 ->
        exists mrow,
          mask !! y = Some mrow /\
          length mrow = (length row1 / 3)%nat /\
          forall x, (x < length row1 / 3)%nat ->
            exists b, mrow !! x = Some b /\
              (b = true <->
               exists c, (c < 3)%nat /\ row1 !! (x * 3 + c)%nat ≠ row2 !! (x * 3 + c)%nat)) /\
  diffMatrix mat1 mat1 = Ok (map (fun row => replicate (length row / 3) false) mat1) /\
  diffMatrix mat1 mat2 = diffMatrix mat2 mat1.
Proof.
  intros Hshape. split; [|split].
  - exists (zip_with pixelsDiffer mat1 mat2). split; [by apply diffMatrix_ok|].
    assert (length mat1 = length mat2) as Hlen by (by eapply Forall2_length).
    split; [rewrite length_zip_with; lia|].
    intros y row1 row2 H1 H2. exists (pixelsDiffer row1 row2).
    split; [by rewrite lookup_zip_with, H1, H2|].
    split; [apply length_pixelsDiffer|].
    intros x Hx. eexists. split; [by apply lookup_pixelsDiffer|].
    rewrite <- pixel_neq_iff. unfold bytesEqual.
    rewrite negb_true_iff, bool_decide_eq_false. done.
  - rewrite diffMatrix_ok by apply sameShape_refl. f_equal. clear Hshape.
    induction mat1 as [|row mat1 IH]; [done|]. simpl.
    by rewrite pixelsDiffer_refl, IH.
  - rewrite !diffMatrix_ok by (done || by apply sameShape_sym). f_equal.
    induction Hshape as [|row1 row2 mat1 mat2 Hrow _ IH]; [done|]. simpl.
    by rewrite IH, pixelsDiffer_sym.
Qed.

(** The example of the specification: two 2x2 images that differ at pixel
    (1,1) only. *)
Lemma diffMatrix_mask_witness :
  sameShape [[0; 0; 0; 0; 0; 0]; [0; 0; 0; 0; 0; 0]]
            [[0; 0; 0; 0; 0; 0]; [0; 0; 0; 255; 255; 255]] /\
  diffMatrix [[0; 0; 0; 0; 0; 0]; [0; 0; 0; 0; 0; 0]]
             [[0; 0; 0; 0; 0; 0]; [0; 0; 0; 255; 255; 255]]
  = diffMatrix [[0; 0; 0; 0; 0; 0]; [0; 0; 0; 255; 255; 255]]
               [[0; 0; 0; 0; 0; 0]; [0; 0; 0; 0; 0; 0]].
Proof.
  assert (sameShape [[0; 0; 0; 0; 0; 0]; [0; 0; 0; 0; 0; 0]]
                    [[0; 0; 0; 0; 0; 0]; [0; 0; 0; 255; 255; 255]]) as H
    by (repeat constructor).
  split; [exact H|].
  exact (proj2 (proj2 (diffMatrix_mask _ _ H))).
Defined.

Example diffMatrix_one_pixel :
  diffMatrix [[0; 0; 0; 0; 0; 0]; [0; 0; 0; 0; 0; 0]]
             [[0; 0; 0; 0; 0; 0]; [0; 0; 0; 255; 255; 255]]
  = Ok [[false; false]; [false; true]].
Proof. reflexivity. Qed.

Lemma diffMatrix_mismatch (mat1 mat2 : Matrix) :
  dimensionsDiffer mat1 mat2 ->
  exists e, diffMatrix mat1 mat2 = Err e /\ isDimensionMismatch e = true.
Proof.
  intros Hdiff. destruct (decide (length mat1 = length mat2)) as [Hlen|Hlen].
  - assert (~ sameShape mat1 mat2) as Hns by (rewrite sameShape_lookup; tauto).
    destruct (first_mismatch _ _ Hlen Hns) as (k & r1 & r2 & H1 & H2 & Hne & Hpre).
    exists (ErrWidthAtRow k). split; [|done]. by eapply diffMatrix_width.
  - exists ErrHeight. split; [|done]. by apply diffMatrix_height.
Qed.

(** C5 (as the code has it). For two matrices with unequal height, or with
    unequal row byte-length at some row index, [diffMatrix] returns a
    dimension-mismatch error.  [equalImgMatrix] compares the digests before
    anything else and checks no dimension itself: when no diff mask is
    requested it returns plain true when the digests of the row-concatenated
    bytes are equal and plain false when they are not, never an error. *)
Theorem dimension_mismatch (mat1 mat2 : Matrix) :
  dimensionsDiffer mat1 mat2 ->
  (exists e, diffMatrix mat1 mat2 = Err e /\ isDimensionMismatch e = true) /\
  equalImgMatrix mat1 mat2 false
  = Ok (bytesEqual (Sha256.sum256 (concat mat1)) (Sha256.sum256 (concat mat2)), []).
Proof.
  intros Hdiff. split; [by apply diffMatrix_mismatch|].
  rewrite equalImgMatrix_unfold. by destruct (bytesEqual _ _).
Qed.

Lemma dimension_mismatch_witness :
  (exists e, diffMatrix [[0; 0; 0]] [[0; 0; 0; 0; 0; 0]] = Err e /\ isDimensionMismatch e = true) /\
  equalImgMatrix [[0; 0; 0]] [[0; 0; 0; 0; 0; 0]] false
  = Ok (bytesEqual (Sha256.sum256 (concat [[0; 0; 0]]))
                   (Sha256.sum256 (concat [[0; 0; 0; 0; 0; 0]])), []).
Proof.
  apply (dimension_mismatch [[0; 0; 0]] [[0; 0; 0; 0; 0; 0]]).
  right. exists 0%nat, [0; 0; 0], [0; 0; 0; 0; 0; 0]. repeat split. simpl. lia.
Defined.

(** C5, as stated, fails: a matrix of one row against one of two rows is
    reported plainly different when no mask is requested, and two matrices of
    different heights and widths holding the same bytes are reported plainly
    equal, mask requested or not. *)
Lemma equalImgMatrix_checks_no_dimension :
  equalImgMatrix [[1; 2; 3]] [[1; 2; 3]; [4; 5; 6]] false = Ok (false, []) /\
  equalImgMatrix mat2x9 mat3x6 true = Ok (true, []) /\
  equalImgMatrix mat2x9 mat3x6 false = Ok (true, []).
Proof. repeat split; vm_compute; reflexivity. Qed.

(** When a mask is requested and the digests differ, the dimension error of
    [diffMatrix] never reaches the caller: [len(diff[0])] is evaluated on the
    nil mask first. *)
Lemma equalImgMatrix_mismatch_panics (mat1 mat2 : Matrix) :
  dimensionsDiffer mat1 mat2 ->
  Sha256.sum256 (concat mat1) ≠ Sha256.sum256 (concat mat2) ->
  equalImgMatrix mat1 mat2 true = Panic IndexOutOfRange.
Proof.
  intros Hdiff Hne. rewrite equalImgMatrix_unfold. unfold bytesEqual.
  rewrite bool_decide_eq_false_2 by done.
  destruct (diffMatrix_mismatch _ _ Hdiff) as (e & -> & _).
  unfold at_. by destruct (mat1 !! 0%nat).
Qed.

(** C10. The digest is taken over the rows one after the other, with no
    mark between rows: two matrices whose row-concatenated bytes are equal
    have equal digests, whatever their heights and row lengths, and
    [equalImgMatrix] reports them equal, with no dimension compared. *)
Theorem digest_ignores_dimensions (mat1 mat2 : Matrix) (diff : bool) :
  concat mat1 = concat mat2 ->
  hash mat1 = hash mat2 /\ equalImgMatrix mat1 mat2 diff = Ok (true, []).
Proof.
  intros H. split.
  - by rewrite !hash_concat, H.
  - by apply equalImgMatrix_same_digest.
Qed.

(** Two rows of nine bytes against three rows of six bytes. *)
Lemma digest_ignores_dimensions_witness :
  hash mat2x9 = hash mat3x6 /\ equalImgMatrix mat2x9 mat3x6 true = Ok (true, []).
Proof. apply (digest_ignores_dimensions mat2x9 mat3x6 true). reflexivity. Defined.

(** ** Compositor *)

(** C2, at a concrete input: two images of one pixel and a gutter of five
    bytes.  The row of the second image starts one byte late, after six
    zero bytes, and loses its last byte. *)
Theorem joinImages_shifts_second_image :
  joinImages [[1; 2; 3]] [[4; 5; 6]] 5 = Ok [[1; 2; 3; 0; 0; 0; 0; 0; 0; 4; 5]].
Proof. reflexivity. Qed.

Lemma copy_into_zeros (w : nat) (row : list Z) :
  (length row <= w)%nat -> copy (replicate w 0) row = row ++ replicate (w - length row) 0.
Proof.
  intros H. unfold copy. rewrite length_replicate, drop_replicate.
  by rewrite take_ge by lia.
Qed.

(** What [joinImages] returns on two images of the same height, of rows of
    [w1] and [w2] bytes: every row of the first image, [padding + 1] zero
    bytes, and the row of the second image without its last byte. *)
Lemma joinImages_rows (img1 img2 : Matrix) (w1 w2 : nat) (padding : Z) :
  rectangular w1 img1 -> rectangular w2 img2 ->
  length img1 = length img2 -> img1 ≠ [] ->
  (1 <= w2)%nat -> 0 <= padding ->
  joinImages img1 img2 padding
  = Ok (map (fun i => (img1 !!! i) ++ replicate (Z.to_nat padding + 1) 0
                      ++ take (w2 - 1) (img2 !!! i))
            (seq 0 (length img1))).
Proof.
  intros Hr1 Hr2 Hlen Hne Hw2 Hp. unfold joinImages, rectangular in *.
  rewrite Forall_lookup in Hr1, Hr2.
  destruct img1 as [|f1 rest1] eqn:E1; [done|].
  destruct img2 as [|f2 rest2] eqn:E2; [done|].
  rewrite <- E1, <- E2 in *. clear Hne.
  assert (img1 !! 0%nat = Some f1) as H01 by (by subst).
  assert (img2 !! 0%nat = Some f2) as H02 by (by subst).
  unfold at_ at 1 2. rewrite H01, H02. cbn [bind].
  rewrite (Hr1 _ _ H01), (Hr2 _ _ H02).
  unfold make at 1. rewrite (proj2 (Z.ltb_ge _ _)) by lia. cbn [bind].
  rewrite Nat2Z.id, length_replicate.
  apply forRange_tabulate; [by rewrite length_replicate|].
  intros i acc Hi Hacc.
  destruct (lookup_lt_is_Some_2 img1 i Hi) as [r1 H1].
  destruct (lookup_lt_is_Some_2 img2 i ltac:(lia)) as [r2 H2].
  pose proof (Hr1 _ _ H1) as L1. pose proof (Hr2 _ _ H2) as L2.
  unfold make, at_. rewrite (proj2 (Z.ltb_ge _ _)) by lia. cbn [bind].
  rewrite H1. cbn [bind]. rewrite L1.
  replace (Z.to_nat (Z.of_nat w1 + padding + Z.of_nat w2))
    with (w1 + Z.to_nat padding + w2)%nat by lia.
  rewrite copy_into_zeros by lia. rewrite L1.
  unfold sliceFrom. rewrite length_app, length_replicate, L1.
  rewrite andb_true_intro by (split; [apply Z.leb_le | apply Z.leb_le]; lia).
  cbn [bind]. rewrite H2. cbn [bind].
  rewrite (list_lookup_total_correct _ _ _ H1), (list_lookup_total_correct _ _ _ H2).
  f_equal.
  replace (Z.to_nat (Z.of_nat w1 + padding + 1)) with (w1 + (Z.to_nat padding + 1))%nat by lia.
  rewrite take_app_add' by done. rewrite drop_app_add' by done.
  rewrite take_replicate, drop_replicate.
  rewrite <- app_assoc. do 2 f_equal; [f_equal; lia|].
  unfold copy. rewrite length_replicate, L2.
  replace (w1 + Z.to_nat padding + w2 - w1 - (Z.to_nat padding + 1))%nat with (w2 - 1)%nat by lia.
  rewrite drop_replicate. replace (w2 - 1 - w2)%nat with 0%nat by lia.
  simpl. by rewrite app_nil_r.
Qed.

(** ** Pixel-dump parser *)

(** C4, at concrete inputs whose header declares a maximum sample value of
    0: on an image of one pixel [ppmToMatrix] does not return an error, the
    division [color * 255 / maxColor] panics; on an image of no pixel it
    returns the empty matrix and no error. *)
Theorem ppmToMatrix_maxValue_zero :
  ppmToMatrix dumpMaxZero = Panic DivideByZero /\
  ppmToMatrix dumpEmptyMaxZero = Ok [].
Proof. split; vm_compute; reflexivity. Qed.

Lemma wrap64_small (x : Z) : - 2 ^ 63 <= x < 2 ^ 63 -> wrap64 x = x.
Proof.
  intros H. unfold wrap64.
  change (2 ^ 63) with 9223372036854775808 in *.
  change (2 ^ 64) with 18446744073709551616.
  rewrite Z.mod_small; lia.
Qed.

(** The scaling of a sample within its declared range: no wrap-around, a
    byte, 255 at the maximum and 0 at 0. *)
Lemma scale_in_range (color maxColor : Z) :
  0 < maxColor < 2 ^ 55 -> 0 <= color <= maxColor ->
  exists scaled,
    intDiv (wrap64 (color * 255)) maxColor = Ok scaled /\
    scaled = color * 255 / maxColor /\
    byte scaled = scaled /\
    0 <= scaled <= 255 /\
    (color = maxColor -> scaled = 255) /\
    (color = 0 -> scaled = 0).
Proof.
  intros Hm Hc. exists (color * 255 / maxColor).
  change (2 ^ 55) with 36028797018963968 in Hm.
  assert (0 <= color * 255 / maxColor <= 255) as Hs.
  { split; [apply Z.div_pos; lia|].
    apply Z.div_le_upper_bound; lia. }
  unfold intDiv. rewrite (proj2 (Z.eqb_neq _ _)) by lia.
  rewrite (wrap64_small (color * 255)) by (change (2 ^ 63) with 9223372036854775808; lia).
  rewrite Z.quot_div_nonneg by lia.
  rewrite wrap64_small by (change (2 ^ 63) with 9223372036854775808; lia).
  repeat split; try lia.
  - unfold byte. apply Z.mod_small. lia.
  - intros ->. rewrite Z.mul_comm. apply Z.div_mul. lia.
  - intros ->. done.
Qed.

(** With a maximum sample value of 0 and an image of one pixel or more, the
    pixel loop never returns a matrix: the first sample is either missing
    (the reader's error) or divided by zero. *)
Lemma readPixels_maxColor_zero (isBinary : bool) (width height : Z) (reader : string) :
  0 < width -> 0 < height -> 0 <= wrap64 (width * 3) ->
  readPixels isBinary width height 0 reader
  = match readSample isBinary reader with
    | Ok _ => Panic DivideByZero
    | Err e => Err e
    | Panic p => Panic p
    end.
Proof.
  intros Hw Hh Hrow. unfold readPixels, make.
  rewrite (proj2 (Z.ltb_ge _ _)) by lia. cbn [bind].
  destruct (Z.to_nat height) as [|h] eqn:Eh; [lia|].
  destruct (Z.to_nat width) as [|w] eqn:Ew; [lia|].
  unfold forRange. cbn [seq forEach bind].
  rewrite (proj2 (Z.ltb_ge _ _)) by lia. cbn [bind].
  unfold store at 1. rewrite decide_True by (rewrite length_replicate; lia).
  cbn [bind]. cbn [seq forEach bind].
  by destruct (readSample isBinary reader) as [[color reader']| |].
Qed.

(** ** Page orchestrator *)

(** C1, at a concrete input: two documents of two pages, page 1 differs and
    the two renderings of page 2 are the same bytes; images and the
    aggregated document are requested.  A diff image is created for page 2
    as well, and page 2 is among the page files handed to [BuildPDF]. *)
Theorem identical_page_gets_diff_file :
  PdfToPPM twoPages "a.pdf" 2 1 = PdfToPPM twoPages "b.pdf" 2 1 /\
  EqualPDFs twoPages "a.pdf" "b.pdf" true (Some (writer "diff.pdf")) 1 1 []
  = (Ok false,
     [ EvPageCount "a.pdf"; EvPageCount "b.pdf";
       EvPdfToPPM "a.pdf" 1 1; EvPdfToPPM "b.pdf" 1 1;
       EvCreate "a.pdf-1-diff.png";
       EvEncode "a.pdf-1-diff.png" [[(127, 127, 0, 255); (0, 0, 0, 255); (0, 0, 0, 255)]];
       EvPdfToPPM "a.pdf" 2 1; EvPdfToPPM "b.pdf" 2 1;
       EvCreate "a.pdf-2-diff.png";
       EvEncode "a.pdf-2-diff.png" [[(9, 9, 9, 255); (0, 0, 0, 255); (0, 0, 0, 255)]];
       EvBuildPDF [ mkPageFile 1 "a.pdf-1-diff.png"; mkPageFile 2 "a.pdf-2-diff.png" ]
                  (writer "diff.pdf") ]).
Proof. split; vm_compute; reflexivity. Qed.

(** C6, at concrete inputs: a document of two pages against a document of
    one page.  With images requested the renderer is called for page 2 of
    the one-page document, a page outside the common range; with only the
    aggregated document requested the orchestrator returns false at once,
    no page rendered and no document built. *)
Theorem page_count_mismatch_runs :
  EqualPDFs oneAndTwo "two.pdf" "one.pdf" true None 1 1 []
  = (Err (ErrExternal "pdftoppm failed"),
     [ EvPageCount "two.pdf"; EvPageCount "one.pdf";
       EvPdfToPPM "two.pdf" 1 1; EvPdfToPPM "one.pdf" 1 1;
       EvPdfToPPM "two.pdf" 2 1; EvPdfToPPM "one.pdf" 2 1 ]) /\
  EqualPDFs oneAndTwo "one.pdf" "two.pdf" false (Some (writer "diff.pdf")) 1 1 []
  = (Ok false, [ EvPageCount "one.pdf"; EvPageCount "two.pdf" ]).
Proof. split; vm_compute; reflexivity. Qed.

(** The page loop when neither images nor the document are requested. *)
Lemma comparePage_report_only (c : Collaborators) (file1 file2 : string)
    (resolution ratio : Z) (i : nat) (same : bool) (t : list event) :
  pageCompares c file1 file2 resolution (pageOf i) same ->
  comparePage c file1 file2 false None resolution ratio i (true, []) t
  = (Ok (if same then Continue else Break, (same, [])),
     t ++ renders file1 file2 resolution [i]).
Proof.
  intros (mat1 & mat2 & H1 & H2 & Heq).
  unfold renderedPage in H1, H2. unfold pageOf in *.
  unfold comparePage, bindM, call, lift, ret.
  destruct (PdfToPPM c file1 (Z.of_nat i + 1) resolution) as [ppm1| |]; try discriminate.
  destruct (PdfToPPM c file2 (Z.of_nat i + 1) resolution) as [ppm2| |]; try discriminate.
  cbn [bind] in H1, H2. rewrite H1, H2.
  replace (false || bool_decide (None ≠ None)) with false by done.
  rewrite Heq. unfold renders, pageOf. cbn [flat_map]. rewrite app_nil_r, <- app_assoc.
  by destruct same.
Qed.

Lemma pageLoop_same_prefix (c : Collaborators) (file1 file2 : string)
    (resolution ratio : Z) (k start : nat) (rest : list nat) (t : list event) :
  (forall i, (start <= i < start + k)%nat ->
     pageCompares c file1 file2 resolution (pageOf i) true) ->
  pageLoop (comparePage c file1 file2 false None resolution ratio)
           (seq start k ++ rest) (true, []) t
  = pageLoop (comparePage c file1 file2 false None resolution ratio)
             rest (true, []) (t ++ renders file1 file2 resolution (seq start k)).
Proof.
  revert start t. induction k as [|k IH]; intros start t Hsame.
  - simpl. unfold renders. simpl. by rewrite app_nil_r.
  - cbn [seq app pageLoop]. unfold bindM at 1.
    rewrite (comparePage_report_only _ _ _ _ _ _ true) by (apply Hsame; lia).
    rewrite IH by (intros; apply Hsame; lia).
    f_equal. rewrite <- app_assoc. done.
Qed.

(** C7. Neither images nor the aggregated document are requested.  When the
    pages before page [p + 1] compare equal and page [p + 1] differs, the
    orchestrator returns false, and the calls it has made are the two page
    counts and, when the counts agree, the renderings of pages 1 to [p + 1]
    and nothing else: no page after the first differing page is rendered,
    no file is created, no image is encoded and no document is built.  This
    holds for every [ratio], zero included, by which the annotation branch
    would divide. *)
Theorem report_only_stops_at_first_difference (c : Collaborators) (file1 file2 : string)
    (resolution ratio pages1 pages2 : Z) (p : nat) :
  file1 ≠ file2 ->
  PageCount c file1 = Ok pages1 ->
  PageCount c file2 = Ok pages2 ->
  pageOf p <= pages1 ->
  (forall i, (i < p)%nat -> pageCompares c file1 file2 resolution (pageOf i) true) ->
  pageCompares c file1 file2 resolution (pageOf p) false ->
  EqualPDFs c file1 file2 false None resolution ratio []
  = (Ok false,
     [EvPageCount file1; EvPageCount file2]
     ++ (if pages1 =? pages2 then renders file1 file2 resolution (seq 0 (S p)) else [])).
Proof.
  intros Hne Hc1 Hc2 Hp Hsame Hdiff. unfold EqualPDFs.
  rewrite (proj2 (String.eqb_neq _ _) Hne).
  unfold bindM at 1, call at 1. rewrite Hc1. cbn [wrapErr].
  unfold bindM at 1, call at 1. rewrite Hc2. cbn [wrapErr app].
  destruct (pages1 =? pages2) eqn:Hcount; cbn [negb andb]; [|done].
  unfold pageOf in Hp.
  rewrite (seq_S p 0), Nat.add_0_l. unfold renders at 1. rewrite flat_map_app.
  fold (renders file1 file2 resolution (seq 0 p)).
  fold (renders file1 file2 resolution [p]).
  replace (Z.to_nat pages1) with (p + S (Z.to_nat pages1 - S p))%nat by lia.
  rewrite seq_app, Nat.add_0_l.
  unfold bindM at 1.
  rewrite pageLoop_same_prefix by (intros; apply Hsame; lia).
  cbn [seq pageLoop]. unfold bindM at 1.
  rewrite (comparePage_report_only _ _ _ _ _ _ false) by done.
  unfold ret. by rewrite <- !app_assoc.
Qed.

(** The example of the specification: two documents of three pages that
    differ on page 2 only; pages 1 and 2 are rendered, page 3 is not. *)
Lemma report_only_stops_at_first_difference_witness :
  EqualPDFs threePages "a.pdf" "b.pdf" false None 300 30 []
  = (Ok false,
     [EvPageCount "a.pdf"; EvPageCount "b.pdf"]
     ++ (if 3 =? 3 then renders "a.pdf" "b.pdf" 300 (seq 0 2) else [])).
Proof.
  apply (report_only_stops_at_first_difference threePages "a.pdf" "b.pdf" 300 30 3 3 1).
  - discriminate.
  - reflexivity.
  - reflexivity.
  - vm_compute. discriminate.
  - intros i Hi. assert (i = 0%nat) as -> by lia.
    exists [[9; 9; 9]], [[9; 9; 9]]. repeat split; vm_compute; reflexivity.
  - exists [[0; 0; 0]], [[255; 255; 255]]. repeat split; vm_compute; reflexivity.
Defined.

(** ** Annotator *)

Lemma make_nonneg {A} (zero : A) (n : Z) :
  0 <= n -> make zero n = Ok (replicate (Z.to_nat n) zero).
Proof. intros H. unfold make. by rewrite (proj2 (Z.ltb_ge _ _)) by lia. Qed.

(** One row of the stamp: the inner loop of [circle] at row [y]. *)
Lemma circle_row (radius : Z) (n y : nat) (stamp : Matrix) :
  stamp !! y = Some (replicate n 0) ->
  forRange n
    (fun x stamp =>
       let dx := Z.of_nat x - radius in
       let dy := Z.of_nat y - radius in
       if dx * dx + dy * dy <=? radius * radius then
         do row <- at_ stamp y;
         do row <- store row x 255;
         store stamp y row
       else Ok stamp)
    stamp
  = store stamp y
      (map (fun x => if inDisc radius (Z.of_nat x - radius) (Z.of_nat y - radius)
                     then 255 else 0)
           (seq 0 n)).
Proof.
  intros Hy. unfold forRange.
  set (cell := fun x : nat => if inDisc radius (Z.of_nat x - radius) (Z.of_nat y - radius)
                              then 255 else 0).
  pose proof (lookup_lt_Some _ _ _ Hy) as Hylt.
  match goal with |- forEach _ ?b _ = _ => set (body := b) end.
  destruct (forEach_invariant
              (fun x (cur : Matrix) =>
                 cur = <[y := map cell (seq 0 x) ++ replicate (n - x) 0]> stamp)
              (seq 0 n) body stamp)
    as (cur & -> & Hcur).
  - simpl. rewrite Nat.sub_0_r. symmetry. by apply list_insert_id.
  - intros i x cur Hx ->. apply lookup_seq_0 in Hx as [-> Hi].
    assert (n - i = S (n - S i))%nat as E by lia.
    subst body. cbv beta zeta.
    rewrite seq_S, map_app. cbn [map]. rewrite <- app_assoc. cbn [app]. rewrite Nat.add_0_l.
    destruct ((Z.of_nat i - radius) * (Z.of_nat i - radius)
              + (Z.of_nat y - radius) * (Z.of_nat y - radius) <=? radius * radius) eqn:Ed.
    + assert (cell i = 255) as -> by (unfold cell, inDisc; by rewrite Ed).
      unfold at_. rewrite list_lookup_insert_eq by done. cbn [bind].
      unfold store. rewrite decide_True
        by (rewrite length_app, length_map, length_seq, length_replicate; lia).
      cbn [bind]. rewrite decide_True by (by rewrite length_insert).
      eexists; split; [done|]. rewrite list_insert_insert_eq. f_equal.
      rewrite E. cbn [replicate].
      rewrite insert_app_r_alt by (rewrite length_map, length_seq; lia).
      rewrite length_map, length_seq, Nat.sub_diag. done.
    + assert (cell i = 0) as -> by (unfold cell, inDisc; by rewrite Ed).
      eexists; split; [done|]. by rewrite E.
  - rewrite length_seq in Hcur. subst cur. rewrite Nat.sub_diag. simpl.
    rewrite app_nil_r. unfold store. by rewrite decide_True.
Qed.

(** [circle] in closed form. *)
Lemma circle_disc (radius : Z) : 0 <= radius -> circle radius = Ok (disc radius).
Proof.
  intros Hr. unfold circle, disc.
  set (n := Z.to_nat (2 * radius + 1)).
  rewrite make_nonneg by lia. cbn [bind]. fold n. rewrite length_replicate.
  rewrite (forRange_tabulate n _ (fun _ => replicate n 0)).
  2: by rewrite length_replicate.
  2: { intros i acc _ _. by rewrite make_nonneg by lia. }
  cbn [bind].
  apply forRange_tabulate_from; [by rewrite length_map, length_seq|].
  intros y acc Hy Hacc Hrest.
  apply circle_row. rewrite Hrest by lia.
  rewrite list_lookup_fmap, lookup_seq_lt by done. done.
Qed.

(** *** Writing one pixel *)

Lemma lookup_pixel_ge (row : list Z) (x c : nat) : (3 <= c)%nat -> pixel row x !! c = None.
Proof. intros Hc. unfold pixel. by rewrite lookup_take_ge. Qed.

Lemma pixel_full (row : list Z) (x : nat) (a b c : Z) :
  row !! (x * 3)%nat = Some a -> row !! (x * 3 + 1)%nat = Some b ->
  row !! (x * 3 + 2)%nat = Some c ->
  pixel row x = [a; b; c].
Proof.
  intros Ha Hb Hc. apply list_eq. intros [|[|[|k]]].
  - rewrite lookup_pixel by lia. by rewrite Nat.add_0_r.
  - by rewrite lookup_pixel by lia.
  - by rewrite lookup_pixel by lia.
  - by rewrite lookup_pixel_ge by lia.
Qed.

Lemma pixel_whole (row : list Z) (x : nat) :
  (x < length row / 3)%nat ->
  exists a b c, row !! (x * 3)%nat = Some a /\ row !! (x * 3 + 1)%nat = Some b /\
                row !! (x * 3 + 2)%nat = Some c.
Proof.
  intros Hx. pose proof (pixel_in_row row x Hx) as Hin.
  destruct (lookup_lt_is_Some_2 row (x * 3)%nat ltac:(lia)) as [a Ha].
  destruct (lookup_lt_is_Some_2 row (x * 3 + 1)%nat ltac:(lia)) as [b Hb].
  destruct (lookup_lt_is_Some_2 row (x * 3 + 2)%nat ltac:(lia)) as [c Hc].
  eauto 7.
Qed.

(** Three stores at the bytes of pixel [X] change that pixel and no other. *)
Lemma pixel_stores (row : list Z) (X x : nat) (a b c : Z) :
  (X < length row / 3)%nat ->
  pixel (<[(X * 3 + 2)%nat := c]> (<[(X * 3 + 1)%nat := b]> (<[(X * 3)%nat := a]> row))) x
  = if decide (x = X) then [a; b; c] else pixel row x.
Proof.
  intros HX. pose proof (pixel_in_row row X HX) as Hin.
  destruct (decide (x = X)) as [->|Hne].
  - apply pixel_full.
    + rewrite !list_lookup_insert_ne by lia. apply list_lookup_insert_eq. lia.
    + rewrite list_lookup_insert_ne by lia. apply list_lookup_insert_eq.
      rewrite length_insert. lia.
    + apply list_lookup_insert_eq. rewrite !length_insert. lia.
  - apply pixel_eq_iff. intros k Hk. by rewrite !list_lookup_insert_ne by lia.
Qed.

Lemma index_nat {A} (l : list A) (i : nat) (x : A) :
  l !! i = Some x -> index l (Z.of_nat i) = Ok x.
Proof.
  intros H. unfold index. rewrite (proj2 (Z.ltb_ge _ _)) by lia.
  by rewrite Nat2Z.id, H.
Qed.

Lemma storeZ_nat {A} (l : list A) (i : nat) (x : A) :
  (i < length l)%nat -> storeZ l (Z.of_nat i) x = Ok (<[i := x]> l).
Proof.
  intros H. unfold storeZ, store. rewrite (proj2 (Z.ltb_ge _ _)) by lia.
  by rewrite Nat2Z.id, decide_True.
Qed.

Lemma annotated_weaken (w : nat) (hit hit' : nat -> nat -> Prop) (img cur : Matrix) :
  annotated w hit img cur ->
  (forall y x, (y < length img)%nat -> (x < w / 3)%nat -> hit y x <-> hit' y x) ->
  annotated w hit' img cur.
Proof.
  intros [Hshape Hpix] Hiff. split; [done|].
  intros y x row crow Hrow Hcrow.
  destruct (Hpix y x row crow Hrow Hcrow) as [Hin Hout].
  pose proof (lookup_lt_Some _ _ _ Hrow) as Hy.
  split.
  - intros Hh Hx. apply Hin; [|done]. by apply Hiff.
  - intros Hn. apply Hout. intros [Hh Hx]. apply Hn. split; [|done]. by apply Hiff.
Qed.

(** The assignment blends pixel [(Y, X)] of [img] into [cur]. *)
Lemma blendInto_annotated (w : nat) (hit : nat -> nat -> Prop) (img cur : Matrix)
    (X Y : nat) :
  rectangular w img ->
  annotated w hit img cur ->
  (Y < length img)%nat -> (X < w / 3)%nat ->
  exists cur',
    blendInto img cur (Z.of_nat X * 3) (Z.of_nat Y) = Ok cur' /\
    annotated w (fun y x => hit y x \/ (y = Y /\ x = X)) img cur'.
Proof.
  intros Hrect [Hshape Hpix] HY HX.
  destruct (lookup_lt_is_Some_2 img Y HY) as [irow Hirow].
  assert (length img = length cur) as Hlen by (by eapply Forall2_length).
  destruct (lookup_lt_is_Some_2 cur Y ltac:(lia)) as [crow Hcrow].
  assert (length crow = length irow) as Hcl
    by (exact (Forall2_lookup_lr _ img cur Y irow crow Hshape Hirow Hcrow)).
  assert (length irow = w) as Hw by (by eapply (proj1 (Forall_lookup _ _) Hrect)).
  rewrite <- Hw in HX.
  destruct (pixel_whole irow X HX) as (r & g & b & Hr & Hg & Hb).
  pose proof (pixel_in_row irow X HX) as Hin.
  unfold blendInto.
  rewrite (index_nat _ _ _ Hcrow), (index_nat _ _ _ Hirow). cbn [bind].
  replace (Z.of_nat X * 3) with (Z.of_nat (X * 3)) by lia.
  replace (Z.of_nat (X * 3) + 1) with (Z.of_nat (X * 3 + 1)) by lia.
  replace (Z.of_nat (X * 3) + 2) with (Z.of_nat (X * 3 + 2)) by lia.
  rewrite (index_nat _ _ _ Hr), (index_nat _ _ _ Hg), (index_nat _ _ _ Hb). cbn [bind].
  destruct (highlightPixel r g b) as [[r' g'] b'] eqn:Hblend.
  rewrite storeZ_nat by lia. cbn [bind].
  rewrite storeZ_nat by (rewrite length_insert; lia). cbn [bind].
  rewrite storeZ_nat by (rewrite !length_insert; lia). cbn [bind].
  rewrite storeZ_nat by lia.
  eexists; split; [done|]. split.
  - apply Forall2_lookup. intros y. destruct (decide (y = Y)) as [->|Hne].
    + rewrite list_lookup_insert_eq by lia. rewrite Hirow. constructor.
      by rewrite !length_insert.
    + rewrite list_lookup_insert_ne by done. by apply Forall2_lookup.
  - intros y x row crow' Hrow Hcrow'.
    destruct (decide (y = Y)) as [->|Hne].
    + rewrite list_lookup_insert_eq in Hcrow' by lia. injection Hcrow' as <-.
      assert (row = irow) as -> by congruence.
      rewrite pixel_stores by (rewrite Hcl; done).
      destruct (Hpix Y x irow crow Hirow Hcrow) as [Hin' Hout'].
      destruct (decide (x = X)) as [->|Hxne].
      * split.
        -- intros _ _. rewrite (pixel_full irow X r g b) by done.
           unfold blend. by rewrite Hblend.
        -- intros Hn. destruct Hn. split; [by right|]. by rewrite <- Hw.
      * split.
        -- intros [Hh|[_ ?]] Hx; [by apply Hin'|done].
        -- intros Hn. apply Hout'. intros [Hh Hx]. apply Hn. split; [by left|done].
    + rewrite list_lookup_insert_ne in Hcrow' by done.
      destruct (Hpix y x row crow' Hrow Hcrow') as [Hin' Hout'].
      split.
      * intros [Hh|[? _]] Hx; [by apply Hin'|done].
      * intros Hn. apply Hout'. intros [Hh Hx]. apply Hn. split; [by left|done].
Qed.

(** *** One stamp *)

Lemma inDisc_bound (r dx dy : Z) :
  0 <= r -> inDisc r dx dy = true -> - r <= dx <= r /\ - r <= dy <= r.
Proof. unfold inDisc. intros Hr H. apply Z.leb_le in H. nia. Qed.

Lemma whole_pixel_iff (w x : nat) : (x < w / 3)%nat <-> (x * 3 + 2 < w)%nat.
Proof.
  pose proof (Nat.div_mod_eq w 3) as Hw.
  pose proof (Nat.mod_upper_bound w 3 ltac:(lia)) as Hm.
  lia.
Qed.

Lemma length_disc (r : Z) : length (disc r) = Z.to_nat (2 * r + 1).
Proof. unfold disc. by rewrite length_map, length_seq. Qed.

Lemma lookup_disc (r : Z) (sy : nat) :
  (sy < Z.to_nat (2 * r + 1))%nat ->
  disc r !! sy
  = Some (map (fun x => if inDisc r (Z.of_nat x - r) (Z.of_nat sy - r) then 255 else 0)
              (seq 0 (Z.to_nat (2 * r + 1)))).
Proof. intros H. unfold disc. by rewrite list_lookup_fmap, lookup_seq_lt. Qed.

Lemma lookup_disc_cell (r : Z) (sy sx : nat) (srow : list Z) :
  (sx < Z.to_nat (2 * r + 1))%nat ->
  disc r !! sy = Some srow ->
  srow !! sx = Some (if inDisc r (Z.of_nat sx - r) (Z.of_nat sy - r) then 255 else 0).
Proof.
  intros Hsx Hrow. pose proof (lookup_lt_Some _ _ _ Hrow) as Hsy.
  rewrite length_disc in Hsy. rewrite lookup_disc in Hrow by done.
  injection Hrow as <-. by rewrite list_lookup_fmap, lookup_seq_lt.
Qed.

(** One call of [highlightStamp] with the stamp of [circle], centred on the
    mask entry [(ym, xm)]: the pixels of its disc that lie in the matrix are
    blended from [img], the others are kept. *)
Lemma highlightStamp_annotated (w : nat) (hit : nat -> nat -> Prop) (img cur : Matrix)
    (r : Z) (ym xm : nat) :
  rectangular w img -> img ≠ [] -> 0 <= r ->
  annotated w hit img cur ->
  exists cur',
    highlightStamp img cur (disc r) (Z.of_nat xm * 3) (Z.of_nat ym) = Ok cur' /\
    annotated w (fun y x => hit y x \/ stamps r ym xm y x) img cur'.
Proof.
  intros Hrect Hne Hr Hann. unfold highlightStamp.
  set (n := Z.to_nat (2 * r + 1)).
  assert (0 < n)%nat as Hn by (subst n; lia).
  destruct (disc r !! 0%nat) as [stamp0|] eqn:Hs0;
    [|rewrite lookup_disc in Hs0 by done; discriminate].
  assert (length stamp0 = n) as Hl0.
  { rewrite lookup_disc in Hs0 by done. injection Hs0 as <-.
    by rewrite length_map, length_seq. }
  unfold at_ at 1. rewrite Hs0. cbn [bind].
  destruct img as [|img0 imgRest] eqn:Eimg; [done|]. rewrite <- Eimg in *.
  assert (img !! 0%nat = Some img0) as Hi0 by (by subst).
  assert (length img0 = w) as Hw0 by (by eapply (proj1 (Forall_lookup _ _) Hrect)).
  unfold at_ at 1. rewrite Hi0. cbn [bind]. clear Hne.
  rewrite length_disc, Hl0, Hw0. fold n.
  assert (Z.of_nat n `div` 2 = r) as Hhalf.
  { subst n. rewrite Z2Nat.id by lia. symmetry. apply (Z.div_unique _ _ _ 1); lia. }
  rewrite Hhalf. unfold forRange.
  match goal with |- context [forEach _ ?b cur] => set (body := b) end.
  destruct (forEach_invariant
              (fun sy c =>
                 annotated w (fun y x => hit y x \/
                                (stamps r ym xm y x /\
                                 Z.of_nat y - Z.of_nat ym + r < Z.of_nat sy)) img c)
              (seq 0 n) body cur)
    as (cur' & -> & Hfin).
  - eapply annotated_weaken; [exact Hann|].
    intros y x _ _. split; [by left|]. intros [?|[Hst Hlt]]; [done|].
    apply inDisc_bound in Hst; lia.
  - intros sy ? c Hx Hc. apply lookup_seq_0 in Hx as [-> Hsy].
    subst body. cbv beta zeta.
    destruct ((Z.of_nat ym - r + Z.of_nat sy <? 0)
              || (Z.of_nat ym - r + Z.of_nat sy >=? Z.of_nat (length img))) eqn:Erow.
    + (* the row of the stamp falls outside the matrix *)
      eexists; split; [done|]. eapply annotated_weaken; [exact Hc|].
      rewrite Z.geb_leb in Erow.
      apply orb_true_iff in Erow as [E|E]; [apply Z.ltb_lt in E|apply Z.leb_le in E];
        intros y x Hy _; split; intros [?|[Hst Hlt]]; try (by left); right; split;
        try done; lia.
    + rewrite Z.geb_leb in Erow. apply orb_false_iff in Erow as [E1 E2].
      apply Z.ltb_ge in E1. apply Z.leb_gt in E2.
      set (Y := Z.to_nat (Z.of_nat ym - r + Z.of_nat sy)).
      assert (Z.of_nat Y = Z.of_nat ym - r + Z.of_nat sy) as HYz by lia.
      rewrite <- HYz.
      assert (Y < length img)%nat as HY by lia.
      destruct (disc r !! sy) as [srow|] eqn:Hsrow;
        [|rewrite lookup_disc in Hsrow by done; discriminate].
      match goal with |- context [forEach _ ?b c] => set (inner := b) end.
      destruct (forEach_invariant
                  (fun sx c' =>
                     annotated w (fun y x => hit y x \/
                                    (stamps r ym xm y x /\
                                     (Z.of_nat y - Z.of_nat ym + r < Z.of_nat sy \/
                                      (y = Y /\
                                       Z.of_nat x - Z.of_nat xm + r < Z.of_nat sx)))) img c')
                  (seq 0 n) inner c)
        as (c' & -> & Hinner).
      * eapply annotated_weaken; [exact Hc|].
        intros y x _ _. split.
        -- intros [?|[Hst Hlt]]; [by left|]. right. split; [done|]. by left.
        -- intros [?|[Hst [Hlt|[-> Hlt]]]]; [by left| right; by split|].
           apply inDisc_bound in Hst; lia.
      * intros sx ? c1 Hx Hc1. apply lookup_seq_0 in Hx as [-> Hsx].
        subst inner. cbv beta zeta.
        replace (Z.of_nat xm * 3 - r * 3 + Z.of_nat sx * 3)
          with ((Z.of_nat xm - r + Z.of_nat sx) * 3) by lia.
        destruct (((Z.of_nat xm - r + Z.of_nat sx) * 3 <? 0)
                  || ((Z.of_nat xm - r + Z.of_nat sx) * 3 + 2 >=? Z.of_nat w)) eqn:Ecol.
        -- (* the column of the stamp falls outside the whole pixels of the row *)
           eexists; split; [done|]. eapply annotated_weaken; [exact Hc1|].
           rewrite Z.geb_leb in Ecol.
           intros y x _ Hxw. apply whole_pixel_iff in Hxw.
           apply orb_true_iff in Ecol as [E|E]; [apply Z.ltb_lt in E|apply Z.leb_le in E];
             split; intros [?|[Hst [Hlt|[-> Hlt]]]]; try (by left); right; split;
             try done; try (by left); right; split; try done; lia.
        -- rewrite Z.geb_leb in Ecol. apply orb_false_iff in Ecol as [E3 E4].
           apply Z.ltb_ge in E3. apply Z.leb_gt in E4.
           set (X := Z.to_nat (Z.of_nat xm - r + Z.of_nat sx)).
           assert (Z.of_nat X = Z.of_nat xm - r + Z.of_nat sx) as HXz by lia.
           rewrite <- HXz.
           assert (X < w / 3)%nat as HX by (apply whole_pixel_iff; lia).
           unfold at_. rewrite Hsrow. cbn [bind].
           rewrite (lookup_disc_cell r sy sx srow Hsx Hsrow). cbn [bind].
           assert (inDisc r (Z.of_nat sx - r) (Z.of_nat sy - r)
                   = inDisc r (Z.of_nat X - Z.of_nat xm) (Z.of_nat Y - Z.of_nat ym)) as Ecell
             by (f_equal; lia).
           rewrite Ecell.
           destruct (inDisc r (Z.of_nat X - Z.of_nat xm) (Z.of_nat Y - Z.of_nat ym)) eqn:Edisc.
           ++ (* inside the disc: the pixel is blended *)
              change (255 =? 0) with false. cbv iota.
              destruct (blendInto_annotated w _ img c1 X Y Hrect Hc1 HY HX)
                as (c2 & -> & Hc2).
              eexists; split; [done|]. eapply annotated_weaken; [exact Hc2|].
              intros y x _ _. split.
              ** intros [[?|[Hst [Hlt|[-> Hlt]]]]|[-> ->]].
                 --- by left.
                 --- right. split; [done|]. by left.
                 --- right. split; [done|]. right. split; [done|]. lia.
                 --- right. split; [exact Edisc|]. right. split; [done|]. lia.
              ** intros [?|[Hst [Hlt|[-> Hlt]]]].
                 --- left. by left.
                 --- left. right. split; [done|]. by left.
                 --- destruct (decide (x = X)) as [->|Hxne]; [by right|].
                     left. right. split; [done|]. right. split; [done|]. lia.
           ++ (* outside the disc: the cell of the stamp is 0 *)
              change (0 =? 0) with true. cbv iota.
              eexists; split; [done|]. eapply annotated_weaken; [exact Hc1|].
              intros y x _ _. split.
              ** intros [?|[Hst [Hlt|[-> Hlt]]]]; [by left|right; split; [done|by left]|].
                 right. split; [done|]. right. split; [done|]. lia.
              ** intros [?|[Hst [Hlt|[-> Hlt]]]]; [by left|right; split; [done|by left]|].
                 destruct (decide (x = X)) as [->|Hxne].
                 --- unfold stamps in Hst. congruence.
                 --- right. split; [done|]. right. split; [done|]. lia.
      * eexists; split; [done|]. rewrite length_seq in Hinner.
        eapply annotated_weaken; [exact Hinner|].
        intros y x _ _. split.
        -- intros [?|[Hst [Hlt|[-> Hlt]]]]; [by left|right; split; [done|lia]|].
           right. split; [done|]. lia.
        -- intros [?|[Hst Hlt]]; [by left|]. right. split; [done|].
           destruct (decide (y = Y)) as [->|Hyne].
           ++ right. split; [done|]. apply inDisc_bound in Hst; lia.
           ++ left. lia.
  - eexists; split; [done|]. rewrite length_seq in Hfin.
    eapply annotated_weaken; [exact Hfin|].
    intros y x _ _. split.
    + intros [?|[Hst _]]; [by left|by right].
    + intros [?|Hst]; [by left|]. right. split; [done|].
      apply inDisc_bound in Hst; lia.
Qed.

(** *** All the stamps *)

Lemma annotated_refl (w : nat) (mat : Matrix) : annotated w (fun _ _ => False) mat mat.
Proof.
  split.
  - induction mat; by constructor.
  - intros y x row crow Hrow Hcrow. assert (crow = row) as -> by congruence.
    split; [done|done].
Qed.

Lemma tabulate_self {A} `{Inhabited A} (l : list A) :
  map (fun i => l !!! i) (seq 0 (length l)) = l.
Proof.
  apply list_eq. intros i. rewrite list_lookup_fmap.
  destruct (decide (i < length l)%nat) as [Hi|Hi].
  - rewrite lookup_seq_lt by done. simpl.
    destruct (lookup_lt_is_Some_2 l i Hi) as [x Hx].
    by rewrite (list_lookup_total_correct _ _ _ Hx).
  - rewrite lookup_seq_ge by lia. by rewrite lookup_ge_None_2 by lia.
Qed.

(** [diffImage] on a matrix of rows of [w] bytes and a mask no taller than
    the matrix: it returns, and what it returns is the matrix with the
    pixels covered by a disc blended once. *)
Lemma diffImage_annotated (w : nat) (mat : Matrix) (diff : Mask) (r : Z) :
  rectangular w mat -> (length diff <= length mat)%nat -> 0 <= r ->
  exists newMat,
    diffImage mat diff r = Ok newMat /\ annotated w (covered diff r) mat newMat.
Proof.
  intros Hrect Hheight Hr. unfold diffImage.
  rewrite (forRange_tabulate (length mat) _ (fun y => mat !!! y)).
  2: by rewrite length_replicate.
  2: { intros y acc Hy _. destruct (lookup_lt_is_Some_2 mat y Hy) as [row Hrow].
       unfold at_. rewrite Hrow. cbn [bind]. rewrite make_nonneg by lia. cbn [bind].
       rewrite Nat2Z.id, copy_into_zeros by done. rewrite Nat.sub_diag. simpl.
       by rewrite app_nil_r, (list_lookup_total_correct _ _ _ Hrow). }
  cbn [bind]. rewrite tabulate_self.
  rewrite circle_disc by done. cbn [bind]. unfold forRange.
  match goal with |- context [forEach _ ?b mat] => set (body := b) end.
  destruct (forEach_invariant
              (fun ym0 c =>
                 annotated w (fun y x => exists ym xm,
                                  marked diff ym xm /\ (ym < ym0)%nat /\
                                  stamps r ym xm y x) mat c)
              (seq 0 (length diff)) body mat)
    as (newMat & -> & Hfin).
  - eapply annotated_weaken; [apply annotated_refl|].
    intros y x _ _. split; [done|]. intros (ym & xm & _ & Hlt & _). lia.
  - intros ym0 ? c Hx Hc. apply lookup_seq_0 in Hx as [-> Hym0].
    subst body. cbv beta.
    destruct (lookup_lt_is_Some_2 diff ym0 Hym0) as [drow Hdrow].
    unfold at_ at 1. rewrite Hdrow. cbn [bind].
    match goal with |- context [forEach _ ?b c] => set (inner := b) end.
    destruct (forEach_invariant
                (fun xm0 c' =>
                   annotated w (fun y x => exists ym xm,
                                    marked diff ym xm /\
                                    ((ym < ym0)%nat \/ (ym = ym0 /\ (xm < xm0)%nat)) /\
                                    stamps r ym xm y x) mat c')
                (seq 0 (length drow)) inner c)
      as (c' & -> & Hinner).
    + eapply annotated_weaken; [exact Hc|].
      intros y x _ _. split.
      * intros (ym & xm & Hm & Hlt & Hst). exists ym, xm. split; [done|]. split; [by left|done].
      * intros (ym & xm & Hm & [Hlt|[_ Hlt]] & Hst); [|lia]. by exists ym, xm.
    + intros xm0 ? c1 Hx Hc1. apply lookup_seq_0 in Hx as [-> Hxm0].
      subst inner. cbv beta.
      destruct (lookup_lt_is_Some_2 drow xm0 Hxm0) as [d Hd].
      unfold at_. rewrite Hd. cbn [bind]. destruct d.
      * (* a true entry: one stamp *)
        assert (mat ≠ []) as Hne by (intros ->; simpl in Hheight; lia).
        destruct (highlightStamp_annotated w _ mat c1 r ym0 xm0 Hrect Hne Hr Hc1)
          as (c2 & -> & Hc2).
        eexists; split; [done|]. eapply annotated_weaken; [exact Hc2|].
        intros y x _ _. split.
        -- intros [(ym & xm & Hm & Hlt & Hst)|Hst].
           ++ exists ym, xm. split; [done|]. split; [|done].
              destruct Hlt as [?|[? ?]]; [by left|right; split; [done|lia]].
           ++ exists ym0, xm0. split; [by exists drow|]. split; [|done].
              right. split; [done|lia].
        -- intros (ym & xm & Hm & Hlt & Hst).
           destruct Hlt as [Hlt|[-> Hlt]].
           ++ left. exists ym, xm. split; [done|]. split; [by left|done].
           ++ destruct (decide (xm = xm0)) as [->|Hxne]; [by right|].
              left. exists ym0, xm. split; [done|]. split; [|done].
              right. split; [done|lia].
      * (* a false entry: nothing *)
        eexists; split; [done|]. eapply annotated_weaken; [exact Hc1|].
        intros y x _ _. split.
        -- intros (ym & xm & Hm & Hlt & Hst). exists ym, xm. split; [done|]. split; [|done].
           destruct Hlt as [?|[? ?]]; [by left|right; split; [done|lia]].
        -- intros (ym & xm & Hm & Hlt & Hst). exists ym, xm. split; [done|]. split; [|done].
           destruct Hlt as [Hlt|[-> Hlt]]; [by left|].
           destruct (decide (xm = xm0)) as [->|Hxne].
           ++ destruct Hm as (drow' & Hdrow' & Hd'). congruence.
           ++ right. split; [done|lia].
    + eexists; split; [done|]. rewrite length_seq in Hinner.
      eapply annotated_weaken; [exact Hinner|].
      intros y x _ _. split.
      * intros (ym & xm & Hm & Hlt & Hst). exists ym, xm. split; [done|]. split; [|done].
        destruct Hlt as [?|[? ?]]; lia.
      * intros (ym & xm & Hm & Hlt & Hst). exists ym, xm. split; [done|]. split; [|done].
        destruct (decide (ym = ym0)) as [->|Hyne]; [|left; lia].
        right. split; [done|]. destruct Hm as (drow' & Hdrow' & Hd').
        assert (drow' = drow) as -> by congruence. by eapply lookup_lt_Some.
  - exists newMat. split; [done|]. rewrite length_seq in Hfin.
    eapply annotated_weaken; [exact Hfin|].
    intros y x _ _. split.
    + intros (ym & xm & Hm & _ & Hst). by exists ym, xm.
    + intros (ym & xm & Hm & Hst). exists ym, xm. split; [done|]. split; [|done].
      destruct Hm as (drow & Hdrow & _). by eapply lookup_lt_Some.
Qed.

(** *** The blend *)

Lemma blend_up (c : Z) :
  0 <= c <= 255 ->
  let q := (inject_Z c * (1 - (1 # 2)) + inject_Z 255 * (1 # 2))%Q in
  truncate (if Qle_bool q (inject_Z 255) then q else inject_Z 255) = (c + 255) / 2.
Proof.
  intros Hc q.
  assert (Qnum q = c * 1 * 2 + 510) as Hn by (subst q; simpl; lia).
  assert (Qden q = 4%positive) as Hd by reflexivity.
  assert (Qle_bool q (inject_Z 255) = true) as ->.
  { unfold Qle_bool. rewrite Hn, Hd. simpl. apply Z.leb_le. lia. }
  unfold truncate. rewrite Hn, Hd.
  rewrite Z.quot_div_nonneg by lia.
  replace (c * 1 * 2 + 510) with ((c + 255) * 2) by lia.
  change 4 with (2 * 2). by rewrite Z.div_mul_cancel_r by lia.
Qed.

Lemma blend_down (c : Z) :
  0 <= c <= 255 ->
  let q := (inject_Z c * (1 - (1 # 2)))%Q in
  truncate (if Qle_bool q (inject_Z 255) then q else inject_Z 255) = c / 2.
Proof.
  intros Hc q.
  assert (Qnum q = c * 1) as Hn by (subst q; simpl; lia).
  assert (Qden q = 2%positive) as Hd by reflexivity.
  assert (Qle_bool q (inject_Z 255) = true) as ->.
  { unfold Qle_bool. rewrite Hn, Hd. simpl. apply Z.leb_le. lia. }
  unfold truncate. rewrite Hn, Hd.
  rewrite Z.quot_div_nonneg by lia. f_equal. lia.
Qed.

(** The yellow blend on bytes: red and green move half-way to 255, blue is
    halved, fractions dropped; the clamps never apply. *)
Lemma highlightPixel_bytes (r g b : Z) :
  0 <= r <= 255 -> 0 <= g <= 255 -> 0 <= b <= 255 ->
  highlightPixel r g b = ((r + 255) / 2, (g + 255) / 2, b / 2).
Proof.
  intros Hr Hg Hb. unfold highlightPixel. cbv zeta.
  by rewrite (blend_up r Hr), (blend_up g Hg), (blend_down b Hb).
Qed.

(** *** The annotator as a whole *)

(** C3, as stated, fails: the middle pixel of [threeInARow] lies in the
    discs of both true entries of [maskEnds], and the annotator gives it the
    blend of the original pixel, (132, 137, 15), not the blend of the blend,
    (193, 196, 7). *)
Lemma overlap_is_blended_once_example :
  diffImage threeInARow maskEnds 1
  = Ok [[132; 137; 15; 132; 137; 15; 132; 137; 15]] /\
  inDisc 1 (1 - 0) (0 - 0) = true /\ inDisc 1 (1 - 2) (0 - 0) = true /\
  blend [10; 20; 30] = [132; 137; 15] /\
  blend (blend [10; 20; 30]) = [193; 196; 7].
Proof. repeat split; vm_compute; reflexivity. Qed.

(** C3 (as the code has it). For a matrix of rows of equal length and a mask
    no taller than it, the annotator returns, and every whole pixel that
    lies in the discs of two true mask entries holds one application of the
    blend to the pixel of the input: [highlightStamp] reads the input matrix,
    never the matrix it writes, so overlapping discs do not compound. *)
Theorem overlapping_discs_blend_once (w : nat) (mat : Matrix) (diff : Mask) (r : Z) :
  rectangular w mat -> (length diff <= length mat)%nat -> 0 <= r ->
  exists newMat,
    diffImage mat diff r = Ok newMat /\
    forall ym1 xm1 ym2 xm2 y x row,
      marked diff ym1 xm1 -> marked diff ym2 xm2 -> (ym1, xm1) ≠ (ym2, xm2) ->
      stamps r ym1 xm1 y x -> stamps r ym2 xm2 y x ->
      (x < w / 3)%nat -> mat !! y = Some row ->
      exists nrow, newMat !! y = Some nrow /\ pixel nrow x = blend (pixel row x).
Proof.
  intros Hrect Hheight Hr.
  destruct (diffImage_annotated w mat diff r Hrect Hheight Hr) as (newMat & Hrun & Hshape & Hpix).
  exists newMat. split; [done|].
  intros ym1 xm1 ym2 xm2 y x row Hm1 _ _ Hs1 _ Hx Hrow.
  assert (length mat = length newMat) as Hlen by (by eapply Forall2_length).
  destruct (lookup_lt_is_Some_2 newMat y) as [nrow Hnrow];
    [apply lookup_lt_Some in Hrow; lia|].
  exists nrow. split; [done|].
  apply (Hpix y x row nrow Hrow Hnrow); [|done]. by exists ym1, xm1.
Qed.

Lemma overlapping_discs_blend_once_witness :
  exists newMat,
    diffImage threeInARow maskEnds 1 = Ok newMat /\
    exists nrow, newMat !! 0%nat = Some nrow /\ pixel nrow 1 = blend [10; 20; 30].
Proof.
  destruct (overlapping_discs_blend_once 9 threeInARow maskEnds 1)
    as (newMat & Hrun & Hpix).
  - repeat constructor.
  - simpl. lia.
  - lia.
  - exists newMat. split; [exact Hrun|].
    apply (Hpix 0%nat 0%nat 0%nat 2%nat 0%nat 1%nat [10; 20; 30; 10; 20; 30; 10; 20; 30]).
    + exists [true; false; true]. split; reflexivity.
    + exists [true; false; true]. split; reflexivity.
    + discriminate.
    + reflexivity.
    + reflexivity.
    + simpl. lia.
    + reflexivity.
Defined.

(** C9. For a matrix of rows of equal length, a mask no taller than it and a
    radius [r >= 0], the annotator returns a matrix and no error, whatever
    part of a stamp falls outside the matrix; the result has the height of
    the input and rows of the same lengths, and every pixel that is not a
    whole pixel inside the disc of a true mask entry is the pixel of the
    input: nothing is written outside the discs, and nothing wraps around. *)
Theorem diffImage_clips (w : nat) (mat : Matrix) (diff : Mask) (r : Z) :
  rectangular w mat -> (length diff <= length mat)%nat -> 0 <= r ->
  exists newMat,
    diffImage mat diff r = Ok newMat /\
    length newMat = length mat /\
    forall y row,
      mat !! y = Some row ->
      exists nrow,
        newMat !! y = Some nrow /\
        length nrow = length row /\
        forall x, ~ (covered diff r y x /\ (x < w / 3)%nat) -> pixel nrow x = pixel row x.
Proof.
  intros Hrect Hheight Hr.
  destruct (diffImage_annotated w mat diff r Hrect Hheight Hr) as (newMat & Hrun & Hshape & Hpix).
  exists newMat. split; [done|].
  assert (length mat = length newMat) as Hlen by (by eapply Forall2_length).
  split; [done|].
  intros y row Hrow.
  destruct (lookup_lt_is_Some_2 newMat y) as [nrow Hnrow];
    [apply lookup_lt_Some in Hrow; lia|].
  exists nrow. split; [done|]. split.
  - exact (Forall2_lookup_lr _ mat newMat y row nrow Hshape Hrow Hnrow).
  - intros x Hx. by apply (Hpix y x row nrow Hrow Hnrow).
Qed.

(** The example of the specification: a highlight centred on the corner
    (0, 0) with radius 5. *)
Lemma diffImage_clips_witness :
  exists newMat,
    diffImage twoByTwo maskCorner 5 = Ok newMat /\ length newMat = length twoByTwo.
Proof.
  destruct (diffImage_clips 6 twoByTwo maskCorner 5) as (newMat & Hrun & Hlen & _).
  - repeat constructor.
  - simpl. lia.
  - lia.
  - exists newMat. split; [exact Hrun|exact Hlen].
Defined.

Example diffImage_corner :
  diffImage twoByTwo maskCorner 5
  = Ok [[132; 137; 15; 147; 152; 30]; [162; 167; 45; 177; 182; 60]].
Proof. vm_compute. reflexivity. Qed.

(** * Further properties of the code *)

(** ** The stamp and the blend *)

(** X1. For a radius [r >= 0], [circle] returns a square stamp of side
    [2r + 1]; its cell at row [y], column [x] is 255 when
    [(x - r)^2 + (y - r)^2 <= r^2] and 0 otherwise. *)
Theorem circle_stamp (r : Z) :
  0 <= r ->
  exists stamp,
    circle r = Ok stamp /\
    length stamp = Z.to_nat (2 * r + 1) /\
    forall y x, (y < Z.to_nat (2 * r + 1))%nat -> (x < Z.to_nat (2 * r + 1))%nat ->
      exists row,
        stamp !! y = Some row /\
        length row = Z.to_nat (2 * r + 1) /\
        row !! x = Some (if (Z.of_nat x - r) * (Z.of_nat x - r)
                            + (Z.of_nat y - r) * (Z.of_nat y - r) <=? r * r
                         then 255 else 0).
Proof.
  intros Hr. exists (disc r). split; [by apply circle_disc|].
  split; [apply length_disc|].
  intros y x Hy Hx. eexists. split; [by apply lookup_disc|].
  split; [by rewrite length_map, length_seq|].
  by rewrite list_lookup_fmap, lookup_seq_lt.
Qed.

Lemma circle_stamp_witness :
  exists stamp,
    circle 2 = Ok stamp /\ length stamp = 5%nat /\
    exists row, stamp !! 0%nat = Some row /\ row !! 2%nat = Some 255.
Proof.
  destruct (circle_stamp 2) as (stamp & Hrun & Hlen & Hcell); [lia|].
  exists stamp. split; [exact Hrun|]. split; [exact Hlen|].
  destruct (Hcell 0%nat 2%nat) as (row & Hrow & _ & Hx); [simpl; lia|simpl; lia|].
  exists row. split; [exact Hrow|exact Hx].
Defined.

(** X2. On three bytes [highlightPixel] returns [(r + 255) / 2],
    [(g + 255) / 2] and [b / 2], fractions dropped: three bytes again, red
    and green at least 127 and blue at most 127.  The three clamps to 255
    never apply. *)
Theorem highlightPixel_yellow (r g b : Z) :
  0 <= r <= 255 -> 0 <= g <= 255 -> 0 <= b <= 255 ->
  exists r' g' b',
    highlightPixel r g b = (r', g', b') /\
    r' = (r + 255) / 2 /\ g' = (g + 255) / 2 /\ b' = b / 2 /\
    127 <= r' <= 255 /\ 127 <= g' <= 255 /\ 0 <= b' <= 127.
Proof.
  intros Hr Hg Hb. exists ((r + 255) / 2), ((g + 255) / 2), (b / 2).
  split; [by apply highlightPixel_bytes|].
  repeat split; try done; Z.div_mod_to_equations; lia.
Qed.

Lemma highlightPixel_yellow_witness :
  exists r' g' b',
    highlightPixel 10 20 30 = (r', g', b') /\
    r' = (10 + 255) / 2 /\ g' = (20 + 255) / 2 /\ b' = 30 / 2 /\
    127 <= r' <= 255 /\ 127 <= g' <= 255 /\ 0 <= b' <= 127.
Proof. apply (highlightPixel_yellow 10 20 30); lia. Defined.

(** ** The annotator *)

(** [diffImage] after its first loop: [newMat] is [mat]. *)
Lemma diffImage_unfold (mat : Matrix) (diff : Mask) (radius : Z) :
  diffImage mat diff radius
  = do stamp <- circle radius;
    forRange (length diff)
      (fun y newMat =>
         do drow <- at_ diff y;
         forRange (length drow)
           (fun x newMat =>
              do d <- at_ drow x;
              if d : bool then highlightStamp mat newMat stamp (Z.of_nat x * 3) (Z.of_nat y)
              else Ok newMat)
           newMat)
      mat.
Proof.
  unfold diffImage.
  rewrite (forRange_tabulate (length mat) _ (fun y => mat !!! y)).
  - cbn [bind]. by rewrite tabulate_self.
  - by rewrite length_replicate.
  - intros y acc Hy _. destruct (lookup_lt_is_Some_2 mat y Hy) as [row Hrow].
    unfold at_. rewrite Hrow. cbn [bind]. rewrite make_nonneg by lia. cbn [bind].
    rewrite Nat2Z.id, copy_into_zeros by done. rewrite Nat.sub_diag. simpl.
    by rewrite app_nil_r, (list_lookup_total_correct _ _ _ Hrow).
Qed.

(** X3. With a mask that is true nowhere (the empty mask included) and a
    radius [r >= 0], [diffImage] returns the matrix it was given, whatever
    the matrix: rows of unequal lengths and the empty matrix included. *)
Theorem diffImage_nothing_marked (mat : Matrix) (diff : Mask) (r : Z) :
  0 <= r ->
  (forall ym xm, ~ marked diff ym xm) ->
  diffImage mat diff r = Ok mat.
Proof.
  intros Hr Hnone. rewrite diffImage_unfold, circle_disc by done. cbn [bind].
  unfold forRange.
  match goal with |- forEach _ ?b mat = _ => set (body := b) end.
  destruct (forEach_invariant (fun _ c => c = mat) (seq 0 (length diff)) body mat)
    as (c & -> & ->); [done| |done].
  intros ym ? c Hx ->. apply lookup_seq_0 in Hx as [-> Hym].
  subst body. cbv beta.
  destruct (lookup_lt_is_Some_2 diff ym Hym) as [drow Hdrow].
  unfold at_ at 1. rewrite Hdrow. cbn [bind].
  match goal with |- context [forEach _ ?b mat] => set (inner := b) end.
  destruct (forEach_invariant (fun _ c => c = mat) (seq 0 (length drow)) inner mat)
    as (c & -> & ->); [done| |by eexists].
  intros xm ? c Hx ->. apply lookup_seq_0 in Hx as [-> Hxm].
  subst inner. cbv beta.
  destruct (lookup_lt_is_Some_2 drow xm Hxm) as [d Hd].
  unfold at_. rewrite Hd. cbn [bind]. destruct d; [|by eexists].
  destruct (Hnone ym xm). by exists drow.
Qed.

Lemma diffImage_nothing_marked_witness :
  diffImage [[1; 2; 3; 4]; [5]] [[false; false]; []] 3 = Ok [[1; 2; 3; 4]; [5]].
Proof.
  apply diffImage_nothing_marked; [lia|].
  intros ym xm (drow & Hdrow & Hd).
  destruct ym as [|[|ym]]; simpl in Hdrow; try discriminate;
    injection Hdrow as <-; destruct xm as [|[|xm]]; discriminate.
Defined.



Lemma covered_radius_zero (diff : Mask) (y x : nat) : covered diff 0 y x <-> marked diff y x.
Proof.
  unfold covered, stamps, inDisc. split.
  - intros (ym & xm & Hm & Hst). apply Z.leb_le in Hst.
    pose proof (Z.square_nonneg (Z.of_nat x - Z.of_nat xm)) as Hx.
    pose proof (Z.square_nonneg (Z.of_nat y - Z.of_nat ym)) as Hy.
    assert ((Z.of_nat x - Z.of_nat xm) * (Z.of_nat x - Z.of_nat xm) = 0) as Ex by lia.
    assert ((Z.of_nat y - Z.of_nat ym) * (Z.of_nat y - Z.of_nat ym) = 0) as Ey by lia.
    apply Z.mul_eq_0 in Ex, Ey.
    assert (x = xm /\ y = ym) as [-> ->] by lia. done.
  - intros Hm. exists y, x. split; [done|]. apply Z.leb_le. lia.
Qed.

(** X5. With radius 0 the annotator blends exactly the marked pixels: in a
    matrix of rows of equal length, under a mask no taller than the matrix,
    a whole pixel of the result is the blend of the input pixel when the
    mask is true at its place, and the input pixel when it is not. *)
Theorem diffImage_radius_zero (w : nat) (mat : Matrix) (diff : Mask) :
  rectangular w mat -> (length diff <= length mat)%nat ->
  exists newMat,
    diffImage mat diff 0 = Ok newMat /\
    forall y x row,
      mat !! y = Some row ->
      exists nrow,
        newMat !! y = Some nrow /\
        (marked diff y x -> (x < w / 3)%nat -> pixel nrow x = blend (pixel row x)) /\
        (~ marked diff y x -> pixel nrow x = pixel row x).
Proof.
  intros Hrect Hheight.
  destruct (diffImage_annotated w mat diff 0 Hrect Hheight ltac:(lia))
    as (newMat & Hrun & Hshape & Hpix).
  exists newMat. split; [done|].
  intros y x row Hrow.
  assert (length mat = length newMat) as Hlen by (by eapply Forall2_length).
  destruct (lookup_lt_is_Some_2 newMat y) as [nrow Hnrow];
    [apply lookup_lt_Some in Hrow; lia|].
  exists nrow. split; [done|].
  destruct (Hpix y x row nrow Hrow Hnrow) as [Hin Hout]. split.
  - intros Hm Hx. apply Hin; [|done]. by apply covered_radius_zero.
  - intros Hm. apply Hout. intros [Hc _]. by apply Hm, covered_radius_zero.
Qed.

Lemma diffImage_radius_zero_witness :
  exists newMat,
    diffImage twoByTwo maskCorner 0 = Ok newMat /\
    exists nrow, newMat !! 0%nat = Some nrow /\ pixel nrow 0 = blend [10; 20; 30].
Proof.
  destruct (diffImage_radius_zero 6 twoByTwo maskCorner) as (newMat & Hrun & Hpix).
  - repeat constructor.
  - simpl. lia.
  - exists newMat. split; [exact Hrun|].
    destruct (Hpix 0%nat 0%nat [10; 20; 30; 40; 50; 60] eq_refl) as (nrow & Hnrow & Hin & _).
    exists nrow. split; [exact Hnrow|].
    apply Hin; [|simpl; lia]. exists [true; false]. split; reflexivity.
Defined.

Lemma markedb_marked (diff : Mask) (ym xm : nat) :
  markedb diff ym xm = true <-> marked diff ym xm.
Proof.
  unfold markedb, marked. split.
  - destruct (diff !! ym) as [drow|]; [|done].
    destruct (drow !! xm) as [[|]|] eqn:Hd; try done. intros _. by exists drow.
  - intros (drow & -> & ->). done.
Qed.

Lemma coveredb_covered (diff : Mask) (r : Z) (y x : nat) :
  coveredb diff r y x = true <-> covered diff r y x.
Proof.
  unfold coveredb, covered, stamps. rewrite existsb_exists. split.
  - intros (ym & _ & H). apply existsb_exists in H as (xm & _ & H).
    apply andb_true_iff in H as [Hm Hd]. exists ym, xm.
    split; [by apply markedb_marked|done].
  - intros (ym & xm & Hm & Hd). destruct Hm as (drow & Hdrow & Hx).
    exists ym. split.
    { apply in_seq. apply lookup_lt_Some in Hdrow. lia. }
    apply existsb_exists. exists xm. split.
    { apply in_seq. rewrite Hdrow. simpl. apply lookup_lt_Some in Hx. lia. }
    apply andb_true_iff. split; [|done]. apply markedb_marked. by exists drow.
Qed.

(** X6. The result of the annotator, pixel by pixel.  For a matrix of rows
    of [w] bytes, a mask no taller than the matrix and a radius [r >= 0],
    the pixel at [(y, x)] of the result is the blend of the input pixel when
    it is one of the [w / 3] whole pixels of its row and lies within
    distance [r], boundary included, of a true mask entry; it is the input
    pixel otherwise. *)
Theorem diffImage_pixels (w : nat) (mat : Matrix) (diff : Mask) (r : Z) :
  rectangular w mat -> (length diff <= length mat)%nat -> 0 <= r ->
  exists newMat,
    diffImage mat diff r = Ok newMat /\
    forall y x row,
      mat !! y = Some row ->
      exists nrow,
        newMat !! y = Some nrow /\
        pixel nrow x = if coveredb diff r y x && (x <? w / 3)%nat
                       then blend (pixel row x) else pixel row x.
Proof.
  intros Hrect Hheight Hr.
  destruct (diffImage_annotated w mat diff r Hrect Hheight Hr)
    as (newMat & Hrun & Hshape & Hpix).
  exists newMat. split; [done|].
  intros y x row Hrow.
  assert (length mat = length newMat) as Hlen by (by eapply Forall2_length).
  destruct (lookup_lt_is_Some_2 newMat y) as [nrow Hnrow];
    [apply lookup_lt_Some in Hrow; lia|].
  exists nrow. split; [done|].
  destruct (Hpix y x row nrow Hrow Hnrow) as [Hin Hout].
  destruct (coveredb diff r y x) eqn:Hc; cbn [andb].
  - destruct (Nat.ltb_spec x (w / 3)) as [Hx|Hx].
    + apply Hin; [by apply coveredb_covered|done].
    + apply Hout. intros [_ ?]. lia.
  - apply Hout. intros [Hcov _]. apply coveredb_covered in Hcov. congruence.
Qed.

Lemma diffImage_pixels_witness :
  exists newMat,
    diffImage threeInARow maskEnds 1 = Ok newMat /\
    exists nrow, newMat !! 0%nat = Some nrow /\ pixel nrow 1 = blend [10; 20; 30].
Proof.
  destruct (diffImage_pixels 9 threeInARow maskEnds 1) as (newMat & Hrun & Hpix).
  - repeat constructor.
  - simpl. lia.
  - lia.
  - exists newMat. split; [exact Hrun|].
    exact (Hpix 0%nat 1%nat [10; 20; 30; 10; 20; 30; 10; 20; 30] eq_refl).
Defined.

Lemma Forall_pixel (P : Z -> Prop) (row : list Z) (x : nat) :
  Forall P row -> Forall P (pixel row x).
Proof. intros H. unfold pixel. by apply Forall_take, Forall_drop. Qed.

Lemma Forall_three {A} (P : A -> Prop) (a b c : A) :
  Forall P [a; b; c] -> P a /\ P b /\ P c.
Proof.
  intros H. inversion H as [|? ? Ha H1]; subst.
  inversion H1 as [|? ? Hb H2]; subst. inversion H2; subst. done.
Qed.

Lemma blend_bytes (p : list Z) : Forall isByte p -> Forall isByte (blend p).
Proof.
  intros H. destruct p as [|a [|b [|c [|d p]]]]; try done. unfold blend.
  apply Forall_three in H as (Ha & Hb & Hc). unfold isByte in *.
  rewrite highlightPixel_bytes by done.
  repeat constructor; Z.div_mod_to_equations; lia.
Qed.

Lemma lookup_via_pixel (row : list Z) (i : nat) :
  row !! i = pixel row (i / 3) !! (i mod 3)%nat.
Proof.
  pose proof (Nat.div_mod_eq i 3) as Hi.
  pose proof (Nat.mod_upper_bound i 3 ltac:(lia)) as Hm.
  rewrite (lookup_pixel row (i / 3) (i mod 3)) by done. f_equal. lia.
Qed.

(** X7. The annotator keeps bytes bytes and writes the yellow blend: when
    every entry of the matrix is in [0, 255] so is every entry of the
    result, and a pixel [(a, b, c)] of the input within distance [r] of a
    true mask entry becomes [((a + 255) / 2, (b + 255) / 2, c / 2)]. *)
Theorem diffImage_bytes (w : nat) (mat : Matrix) (diff : Mask) (r : Z) :
  rectangular w mat -> (length diff <= length mat)%nat -> 0 <= r ->
  bytesInRange mat ->
  exists newMat,
    diffImage mat diff r = Ok newMat /\
    bytesInRange newMat /\
    forall y x row a b c,
      mat !! y = Some row -> covered diff r y x -> pixel row x = [a; b; c] ->
      exists nrow,
        newMat !! y = Some nrow /\
        pixel nrow x = [(a + 255) / 2; (b + 255) / 2; c / 2].
Proof.
  intros Hrect Hheight Hr Hbytes.
  destruct (diffImage_annotated w mat diff r Hrect Hheight Hr)
    as (newMat & Hrun & Hshape & Hpix).
  exists newMat. split; [done|].
  assert (length mat = length newMat) as Hlen by (by eapply Forall2_length).
  split.
  - apply Forall_lookup. intros y nrow Hnrow.
    destruct (lookup_lt_is_Some_2 mat y) as [row Hrow];
      [apply lookup_lt_Some in Hnrow; lia|].
    pose proof (proj1 (Forall_lookup _ _) Hbytes y row Hrow) as Hrb.
    apply Forall_lookup. intros i v Hv. rewrite lookup_via_pixel in Hv.
    destruct (Hpix y (i / 3)%nat row nrow Hrow Hnrow) as [Hin Hout].
    assert (Forall isByte (pixel nrow (i / 3))) as Hp.
    { destruct (coveredb diff r y (i / 3)) eqn:Hc.
      - destruct (Nat.ltb_spec (i / 3) (w / 3)) as [Hx|Hx].
        + rewrite Hin by (by apply coveredb_covered || done).
          by apply blend_bytes, Forall_pixel.
        + rewrite Hout by (intros [_ ?]; lia). by apply Forall_pixel.
      - rewrite Hout; [by apply Forall_pixel|].
        intros [Hcov _]. apply coveredb_covered in Hcov. congruence. }
    exact (proj1 (Forall_lookup _ _) Hp _ _ Hv).
  - intros y x row a b c Hrow Hcov Hp.
    destruct (lookup_lt_is_Some_2 newMat y) as [nrow Hnrow];
      [apply lookup_lt_Some in Hrow; lia|].
    exists nrow. split; [done|].
    pose proof (proj1 (Forall_lookup _ _) Hbytes y row Hrow) as Hrb.
    pose proof (Forall_pixel isByte row x Hrb) as Hpb. rewrite Hp in Hpb.
    apply Forall_three in Hpb as (Ha & Hb & Hc).
    assert (length row = w) as Hw by (by eapply (proj1 (Forall_lookup _ _) Hrect)).
    assert (x < w / 3)%nat as Hx.
    { apply whole_pixel_iff. rewrite <- Hw.
      assert (length (pixel row x) = 3%nat) as Hl by (by rewrite Hp).
      unfold pixel in Hl. rewrite length_take, length_drop in Hl. lia. }
    destruct (Hpix y x row nrow Hrow Hnrow) as [Hin _].
    rewrite Hin, Hp by done. unfold blend. by rewrite highlightPixel_bytes.
Qed.

Lemma diffImage_bytes_witness :
  exists newMat,
    diffImage threeInARow maskEnds 1 = Ok newMat /\ bytesInRange newMat.
Proof.
  destruct (diffImage_bytes 9 threeInARow maskEnds 1) as (newMat & Hrun & Hb & _).
  - repeat constructor.
  - simpl. lia.
  - lia.
  - repeat constructor; unfold isByte; lia.
  - exists newMat. split; [exact Hrun|exact Hb].
Defined.

(** ** The compositor *)

(** [joinImages] row by row, the second image at least as tall as the first. *)
Lemma joinImages_rows_le (img1 img2 : Matrix) (w1 w2 : nat) (padding : Z) :
  rectangular w1 img1 -> rectangular w2 img2 ->
  (length img1 <= length img2)%nat -> img1 ≠ [] ->
  (1 <= w2)%nat -> 0 <= padding ->
  joinImages img1 img2 padding
  = Ok (map (fun i => (img1 !!! i) ++ replicate (Z.to_nat padding + 1) 0
                      ++ take (w2 - 1) (img2 !!! i))
            (seq 0 (length img1))).
Proof.
  intros Hr1 Hr2 Hlen Hne Hw2 Hp. unfold joinImages, rectangular in *.
  rewrite Forall_lookup in Hr1, Hr2.
  destruct img1 as [|f1 rest1] eqn:E1; [done|].
  destruct img2 as [|f2 rest2] eqn:E2; [subst; simpl in Hlen; lia|].
  rewrite <- E1, <- E2 in *. clear Hne.
  assert (img1 !! 0%nat = Some f1) as H01 by (by subst).
  assert (img2 !! 0%nat = Some f2) as H02 by (by subst).
  unfold at_ at 1 2. rewrite H01, H02. cbn [bind].
  rewrite (Hr1 _ _ H01), (Hr2 _ _ H02).
  unfold make at 1. rewrite (proj2 (Z.ltb_ge _ _)) by lia. cbn [bind].
  rewrite Nat2Z.id, length_replicate.
  apply forRange_tabulate; [by rewrite length_replicate|].
  intros i acc Hi Hacc.
  destruct (lookup_lt_is_Some_2 img1 i Hi) as [r1 H1].
  destruct (lookup_lt_is_Some_2 img2 i ltac:(lia)) as [r2 H2].
  pose proof (Hr1 _ _ H1) as L1. pose proof (Hr2 _ _ H2) as L2.
  unfold make, at_. rewrite (proj2 (Z.ltb_ge _ _)) by lia. cbn [bind].
  rewrite H1. cbn [bind]. rewrite L1.
  replace (Z.to_nat (Z.of_nat w1 + padding + Z.of_nat w2))
    with (w1 + Z.to_nat padding + w2)%nat by lia.
  rewrite copy_into_zeros by lia. rewrite L1.
  unfold sliceFrom. rewrite length_app, length_replicate, L1.
  rewrite andb_true_intro by (split; [apply Z.leb_le | apply Z.leb_le]; lia).
  cbn [bind]. rewrite H2. cbn [bind].
  rewrite (list_lookup_total_correct _ _ _ H1), (list_lookup_total_correct _ _ _ H2).
  f_equal.
  replace (Z.to_nat (Z.of_nat w1 + padding + 1)) with (w1 + (Z.to_nat padding + 1))%nat by lia.
  rewrite take_app_add' by done. rewrite drop_app_add' by done.
  rewrite take_replicate, drop_replicate.
  rewrite <- app_assoc. do 2 f_equal; [f_equal; lia|].
  unfold copy. rewrite length_replicate, L2.
  replace (w1 + Z.to_nat padding + w2 - w1 - (Z.to_nat padding + 1))%nat with (w2 - 1)%nat by lia.
  rewrite drop_replicate. replace (w2 - 1 - w2)%nat with 0%nat by lia.
  simpl. by rewrite app_nil_r.
Qed.

(** X8. The layout [joinImages] gives its result.  For a first image of
    rows of [w1] bytes, a second image of rows of [w2 >= 1] bytes at least
    as tall as the first, and a gutter [padding >= 0], the result has the
    height of the first image, and its row [i] is row [i] of the first
    image, [padding + 1] zero bytes, and row [i] of the second image without
    its last byte: [w1 + padding + w2] bytes.  Rows of the second image
    past the height of the first are left out. *)
Theorem joinImages_layout (img1 img2 : Matrix) (w1 w2 : nat) (padding : Z) :
  rectangular w1 img1 -> rectangular w2 img2 ->
  (length img1 <= length img2)%nat -> img1 ≠ [] ->
  (1 <= w2)%nat -> 0 <= padding ->
  exists joined,
    joinImages img1 img2 padding = Ok joined /\
    length joined = length img1 /\
    forall i row1 row2,
      img1 !! i = Some row1 -> img2 !! i = Some row2 ->
      joined !! i = Some (row1 ++ replicate (Z.to_nat padding + 1) 0 ++ take (w2 - 1) row2) /\
      length (row1 ++ replicate (Z.to_nat padding + 1) 0 ++ take (w2 - 1) row2)
      = (w1 + Z.to_nat padding + w2)%nat.
Proof.
  intros Hr1 Hr2 Hlen Hne Hw2 Hp. eexists.
  split; [by apply (joinImages_rows_le img1 img2 w1 w2)|].
  split; [by rewrite length_map, length_seq|].
  intros i row1 row2 H1 H2. split.
  - rewrite list_lookup_fmap, lookup_seq_lt by (by eapply lookup_lt_Some). simpl.
    by rewrite (list_lookup_total_correct _ _ _ H1), (list_lookup_total_correct _ _ _ H2).
  - rewrite !length_app, length_replicate, length_take.
    rewrite (proj1 (Forall_lookup _ _) Hr1 _ _ H1), (proj1 (Forall_lookup _ _) Hr2 _ _ H2).
    lia.
Qed.

Lemma joinImages_layout_witness :
  exists joined,
    joinImages [[1; 2; 3]] [[4; 5; 6]; [7; 8; 9]] 5 = Ok joined /\
    length joined = 1%nat.
Proof.
  destruct (joinImages_layout [[1; 2; 3]] [[4; 5; 6]; [7; 8; 9]] 3 3 5)
    as (joined & Hrun & Hlen & _).
  - repeat constructor.
  - repeat constructor.
  - simpl. lia.
  - discriminate.
  - lia.
  - lia.
  - exists joined. split; [exact Hrun|exact Hlen].
Defined.

(** X9. When the second image has fewer rows than the first, [joinImages]
    panics with an index out of range at the first row the second image
    lacks. *)
Theorem joinImages_second_shorter (img1 img2 : Matrix) (w1 w2 : nat) (padding : Z) :
  rectangular w1 img1 -> rectangular w2 img2 ->
  (length img2 < length img1)%nat -> img2 ≠ [] ->
  (1 <= w2)%nat -> 0 <= padding ->
  joinImages img1 img2 padding = Panic IndexOutOfRange.
Proof.
  intros Hr1 Hr2 Hlen Hne Hw2 Hp. unfold joinImages, rectangular in *.
  rewrite Forall_lookup in Hr1, Hr2.
  destruct img1 as [|f1 rest1] eqn:E1; [simpl in Hlen; lia|].
  destruct img2 as [|f2 rest2] eqn:E2; [done|].
  rewrite <- E1, <- E2 in *. clear Hne.
  assert (img1 !! 0%nat = Some f1) as H01 by (by subst).
  assert (img2 !! 0%nat = Some f2) as H02 by (by subst).
  unfold at_ at 1 2. rewrite H01, H02. cbn [bind].
  rewrite (Hr1 _ _ H01), (Hr2 _ _ H02).
  unfold make at 1. rewrite (proj2 (Z.ltb_ge _ _)) by lia. cbn [bind].
  rewrite Nat2Z.id, length_replicate. unfold forRange.
  apply (forEach_leaves (fun _ (acc : Matrix) => length acc = length img1))
    with (k := length img2) (xk := length img2).
  - by rewrite length_replicate.
  - by apply lookup_seq_lt.
  - intros i ? acc Hi Hx Hacc. apply lookup_seq_0 in Hx as [-> _].
    destruct (lookup_lt_is_Some_2 img1 i ltac:(lia)) as [r1 H1].
    destruct (lookup_lt_is_Some_2 img2 i Hi) as [r2 H2].
    pose proof (Hr1 _ _ H1) as L1. pose proof (Hr2 _ _ H2) as L2.
    unfold make, at_. rewrite (proj2 (Z.ltb_ge _ _)) by lia. cbn [bind].
    rewrite H1. cbn [bind]. rewrite L1.
    replace (Z.to_nat (Z.of_nat w1 + padding + Z.of_nat w2))
      with (w1 + Z.to_nat padding + w2)%nat by lia.
    rewrite copy_into_zeros by lia. rewrite L1.
    unfold sliceFrom. rewrite length_app, length_replicate, L1.
    rewrite andb_true_intro by (split; [apply Z.leb_le | apply Z.leb_le]; lia).
    cbn [bind]. rewrite H2. cbn [bind]. unfold store.
    rewrite decide_True by lia. eexists; split; [done|]. by rewrite length_insert.
  - intros acc Hacc.
    destruct (lookup_lt_is_Some_2 img1 (length img2) Hlen) as [r1 H1].
    pose proof (Hr1 _ _ H1) as L1.
    unfold make, at_. rewrite (proj2 (Z.ltb_ge _ _)) by lia. cbn [bind].
    rewrite H1. cbn [bind]. rewrite L1.
    replace (Z.to_nat (Z.of_nat w1 + padding + Z.of_nat w2))
      with (w1 + Z.to_nat padding + w2)%nat by lia.
    rewrite copy_into_zeros by lia. rewrite L1.
    unfold sliceFrom. rewrite length_app, length_replicate, L1.
    rewrite andb_true_intro by (split; [apply Z.leb_le | apply Z.leb_le]; lia).
    cbn [bind]. by rewrite lookup_ge_None_2 by lia.
  - done.
Qed.

Lemma joinImages_second_shorter_witness :
  joinImages [[1; 2; 3]; [4; 5; 6]] [[7; 8; 9]] 5 = Panic IndexOutOfRange.
Proof.
  apply (joinImages_second_shorter _ _ 3 3).
  - repeat constructor.
  - repeat constructor.
  - simpl. lia.
  - discriminate.
  - lia.
  - lia.
Defined.

(** One row of the image: the inner loop of [rgbToPNG] at row [y]. *)
Lemma rgbToPNG_row (matrix : Matrix) (row : list Z) (n y : nat) (img : Image) :
  matrix !! y = Some row -> (n <= length row / 3)%nat ->
  img !! y = Some (replicate n (0, 0, 0, 0)) ->
  forRange n
    (fun x img =>
       do row <- at_ matrix y;
       do r <- at_ row (x * 3);
       do g <- at_ row (x * 3 + 1);
       do b <- at_ row (x * 3 + 2);
       do irow <- at_ img y;
       do irow <- store irow x (r, g, b, 255);
       store img y irow)
    img
  = store img y
      (map (fun x => (row !!! (x * 3)%nat, row !!! (x * 3 + 1)%nat,
                      row !!! (x * 3 + 2)%nat, 255))
           (seq 0 n)).
Proof.
  intros Hrow Hn Hy. unfold forRange.
  set (cell := fun x : nat => (row !!! (x * 3)%nat, row !!! (x * 3 + 1)%nat,
                               row !!! (x * 3 + 2)%nat, 255)).
  pose proof (lookup_lt_Some _ _ _ Hy) as Hylt.
  match goal with |- forEach _ ?b _ = _ => set (body := b) end.
  destruct (forEach_invariant
              (fun x (cur : Image) =>
                 cur = <[y := map cell (seq 0 x) ++ replicate (n - x) (0, 0, 0, 0)]> img)
              (seq 0 n) body img)
    as (cur & -> & Hcur).
  - simpl. rewrite Nat.sub_0_r. symmetry. by apply list_insert_id.
  - intros i x cur Hx ->. apply lookup_seq_0 in Hx as [-> Hi].
    assert (n - i = S (n - S i))%nat as E by lia.
    subst body. cbv beta.
    destruct (pixel_whole row i ltac:(lia)) as (r & g & b & Hr & Hg & Hb).
    unfold at_. rewrite Hrow. cbn [bind]. rewrite Hr, Hg, Hb. cbn [bind].
    rewrite list_lookup_insert_eq by done. cbn [bind].
    unfold store. rewrite decide_True
      by (rewrite length_app, length_map, length_seq, length_replicate; lia).
    cbn [bind]. rewrite decide_True by (by rewrite length_insert).
    eexists; split; [done|]. rewrite list_insert_insert_eq. f_equal.
    rewrite seq_S, map_app. cbn [map]. rewrite <- app_assoc. cbn [app]. rewrite Nat.add_0_l.
    rewrite E. cbn [replicate].
    rewrite insert_app_r_alt by (rewrite length_map, length_seq; lia).
    rewrite length_map, length_seq, Nat.sub_diag. cbn [insert list_insert].
    unfold cell at 3.
    by rewrite (list_lookup_total_correct _ _ _ Hr), (list_lookup_total_correct _ _ _ Hg),
      (list_lookup_total_correct _ _ _ Hb).
  - rewrite length_seq in Hcur. subst cur. rewrite Nat.sub_diag. simpl.
    rewrite app_nil_r. unfold store. by rewrite decide_True.
Qed.

(** X10. [rgbToPNG] on a matrix of one row or more, every row of [w] bytes:
    the image has the height of the matrix and [w / 3] pixels a row, and its
    pixel [(y, x)] is the three bytes of the matrix pixel with alpha 255. *)
Theorem rgbToPNG_pixels (w : nat) (matrix : Matrix) :
  rectangular w matrix -> matrix ≠ [] ->
  exists img,
    rgbToPNG matrix = Ok img /\
    length img = length matrix /\
    forall y row,
      matrix !! y = Some row ->
      exists irow,
        img !! y = Some irow /\
        length irow = (w / 3)%nat /\
        forall x r g b,
          pixel row x = [r; g; b] -> irow !! x = Some (r, g, b, 255).
Proof.
  intros Hrect Hne. unfold rgbToPNG, rectangular in *. rewrite Forall_lookup in Hrect.
  destruct matrix as [|first rest] eqn:E; [done|]. rewrite <- E in *. clear Hne.
  assert (matrix !! 0%nat = Some first) as H0 by (by subst).
  unfold at_ at 1. rewrite H0. cbn [bind]. rewrite (Hrect _ _ H0).
  set (cells := fun y => map (fun x => ((matrix !!! y) !!! (x * 3)%nat,
                                        (matrix !!! y) !!! (x * 3 + 1)%nat,
                                        (matrix !!! y) !!! (x * 3 + 2)%nat, 255))
                             (seq 0 (w / 3))).
  exists (map cells (seq 0 (length matrix))). split; [|split].
  - apply forRange_tabulate_from; [by rewrite length_replicate|].
    intros y acc Hy Hacc Hrest.
    destruct (lookup_lt_is_Some_2 matrix y Hy) as [row Hrow].
    rewrite (rgbToPNG_row matrix row (w / 3) y acc Hrow).
    + unfold cells. by rewrite (list_lookup_total_correct _ _ _ Hrow).
    + by rewrite (Hrect _ _ Hrow).
    + rewrite Hrest by lia. by apply lookup_replicate_2.
  - by rewrite length_map, length_seq.
  - intros y row Hrow. pose proof (lookup_lt_Some _ _ _ Hrow) as Hy.
    exists (cells y). split; [by rewrite list_lookup_fmap, lookup_seq_lt|].
    split; [unfold cells; by rewrite length_map, length_seq|].
    intros x r g b Hp.
    assert (x < w / 3)%nat as Hx.
    { apply whole_pixel_iff. rewrite <- (Hrect _ _ Hrow).
      assert (length (pixel row x) = 3%nat) as Hl by (by rewrite Hp).
      unfold pixel in Hl. rewrite length_take, length_drop in Hl. lia. }
    unfold cells. rewrite list_lookup_fmap, lookup_seq_lt by done. simpl.
    rewrite (list_lookup_total_correct _ _ _ Hrow).
    assert (pixel row x !! 0%nat = Some r) as Hr by (by rewrite Hp).
    assert (pixel row x !! 1%nat = Some g) as Hg by (by rewrite Hp).
    assert (pixel row x !! 2%nat = Some b) as Hb by (by rewrite Hp).
    rewrite lookup_pixel in Hr, Hg, Hb by lia. rewrite Nat.add_0_r in Hr.
    by rewrite (list_lookup_total_correct _ _ _ Hr), (list_lookup_total_correct _ _ _ Hg),
      (list_lookup_total_correct _ _ _ Hb).
Qed.

Lemma rgbToPNG_pixels_witness :
  exists img,
    rgbToPNG twoByTwo = Ok img /\ length img = 2%nat /\
    exists irow, img !! 1%nat = Some irow /\ irow !! 1%nat = Some (100, 110, 120, 255).
Proof.
  destruct (rgbToPNG_pixels 6 twoByTwo) as (img & Hrun & Hlen & Hpix).
  - repeat constructor.
  - discriminate.
  - exists img. split; [exact Hrun|]. split; [exact Hlen|].
    destruct (Hpix 1%nat [70; 80; 90; 100; 110; 120] eq_refl) as (irow & Hirow & _ & Hx).
    exists irow. split; [exact Hirow|]. exact (Hx 1%nat 100 110 120 eq_refl).
Defined.

(** ** The diff engine and the equality check *)

(** X11. With equal heights, [diffMatrix] returns the width error of the
    first row at which the byte-lengths differ, whatever comes after it. *)
Theorem diffMatrix_names_first_row (mat1 mat2 : Matrix) (k : nat) (row1 row2 : list Z) :
  length mat1 = length mat2 ->
  mat1 !! k = Some row1 -> mat2 !! k = Some row2 -> length row1 ≠ length row2 ->
  (forall i a b, (i < k)%nat -> mat1 !! i = Some a -> mat2 !! i = Some b ->
     length a = length b) ->
  diffMatrix mat1 mat2 = Err (ErrWidthAtRow k).
Proof.
  intros Hlen H1 H2 Hne Hbefore.
  apply (diffMatrix_width mat1 mat2 k row1 row2); try done.
  apply Forall2_lookup. intros i.
  destruct (decide (i < k)%nat) as [Hi|Hi].
  - rewrite !lookup_take_lt by done.
    pose proof (lookup_lt_Some _ _ _ H1) as Hk.
    destruct (lookup_lt_is_Some_2 mat1 i ltac:(lia)) as [a Ha].
    destruct (lookup_lt_is_Some_2 mat2 i ltac:(lia)) as [b Hb].
    rewrite Ha, Hb. constructor. by eapply Hbefore.
  - rewrite !lookup_take_ge by lia. constructor.
Qed.

Lemma diffMatrix_names_first_row_witness :
  diffMatrix [[1; 2; 3]; [4; 5; 6]; [7]] [[1; 2; 3]; [4; 5]; [7; 8]] = Err (ErrWidthAtRow 1).
Proof.
  apply (diffMatrix_names_first_row _ _ 1 [4; 5; 6] [4; 5]).
  - reflexivity.
  - reflexivity.
  - reflexivity.
  - simpl. lia.
  - intros i a b Hi Ha Hb. assert (i = 0%nat) as -> by lia.
    simpl in Ha, Hb. injection Ha as <-. injection Hb as <-. reflexivity.
Defined.

Lemma sameShape_differ (mat1 mat2 : Matrix) :
  sameShape mat1 mat2 -> concat mat1 ≠ concat mat2 ->
  exists y row1 row2 i,
    mat1 !! y = Some row1 /\ mat2 !! y = Some row2 /\
    (i < length row1)%nat /\ row1 !! i ≠ row2 !! i.
Proof.
  induction 1 as [|row1 row2 mat1 mat2 Hrow Hs IH]; intros Hne; [done|].
  destruct (decide (row1 = row2)) as [->|Hr].
  - destruct IH as (y & r1 & r2 & i & H1 & H2 & Hi & Hd).
    + intros E. apply Hne. simpl. by rewrite E.
    + exists (S y), r1, r2, i. done.
  - assert (exists i, row1 !! i ≠ row2 !! i) as [i Hi].
    { clear -Hr Hrow. revert row2 Hr Hrow.
      induction row1 as [|a row1 IH]; intros [|b row2] Hr Hrow; try done.
      destruct (decide (a = b)) as [->|Hab].
      - destruct (IH row2) as [i Hi]; [congruence|simpl in Hrow; lia|]. by exists (S i).
      - exists 0%nat. simpl. congruence. }
    exists 0%nat, row1, row2, i. repeat split; try done.
    destruct (decide (i < length row1)%nat); [done|].
    destruct Hi. by rewrite !lookup_ge_None_2 by lia.
Qed.

(** X12. When a mask is requested, the two matrices have equal dimensions
    with rows of whole pixels, and their digests differ, [equalImgMatrix]
    returns false with the mask of [diffMatrix], and that mask is true at
    one place or more. *)
Theorem equalImgMatrix_mask (mat1 mat2 : Matrix) :
  sameShape mat1 mat2 ->
  Forall (fun row => (length row mod 3 = 0)%nat) mat1 ->
  Sha256.sum256 (concat mat1) ≠ Sha256.sum256 (concat mat2) ->
  exists mask,
    equalImgMatrix mat1 mat2 true = Ok (false, mask) /\
    diffMatrix mat1 mat2 = Ok mask /\
    exists y x, marked mask y x.
Proof.
  intros Hshape Hwhole Hne.
  assert (concat mat1 ≠ concat mat2) as Hc by congruence.
  destruct (sameShape_differ _ _ Hshape Hc) as (y & row1 & row2 & i & H1 & H2 & Hi & Hd).
  exists (zip_with pixelsDiffer mat1 mat2).
  pose proof (diffMatrix_ok _ _ Hshape) as Hdiff.
  assert (zip_with pixelsDiffer mat1 mat2 !! y = Some (pixelsDiffer row1 row2)) as Hy
    by (by rewrite lookup_zip_with, H1, H2).
  split; [|split; [done|]].
  - rewrite equalImgMatrix_unfold. unfold bytesEqual.
    rewrite bool_decide_eq_false_2 by done. rewrite Hdiff.
    unfold at_. destruct (mat1 !! 0%nat) eqn:E0.
    + cbn [bind].
      destruct (zip_with pixelsDiffer mat1 mat2 !! 0%nat) eqn:Ez; [done|].
      apply lookup_ge_None in Ez. apply lookup_lt_Some in Hy. lia.
    + apply lookup_ge_None in E0. apply lookup_lt_Some in H1. lia.
  - pose proof (proj1 (Forall_lookup _ _) Hwhole y row1 H1) as Hm. cbv beta in Hm.
    pose proof (Nat.div_mod_eq (length row1) 3) as Hl.
    pose proof (Nat.div_mod_eq i 3) as Hi3.
    pose proof (Nat.mod_upper_bound i 3 ltac:(lia)) as Hi3'.
    assert (i / 3 < length row1 / 3)%nat as Hx by lia.
    exists y, (i / 3)%nat, (pixelsDiffer row1 row2). split; [done|].
    rewrite lookup_pixelsDiffer by done. f_equal.
    unfold bytesEqual. rewrite negb_true_iff, bool_decide_eq_false.
    apply pixel_neq_iff. exists (i mod 3)%nat. split; [done|].
    by replace (i / 3 * 3 + i mod 3)%nat with i by lia.
Qed.

Lemma equalImgMatrix_mask_witness :
  exists mask,
    equalImgMatrix [[0; 0; 0]] [[0; 0; 1]] true = Ok (false, mask) /\
    diffMatrix [[0; 0; 0]] [[0; 0; 1]] = Ok mask /\
    exists y x, marked mask y x.
Proof.
  apply (equalImgMatrix_mask [[0; 0; 0]] [[0; 0; 1]]).
  - repeat constructor.
  - repeat constructor.
  - intros H. vm_compute in H. discriminate.
Defined.

(** X13. When a mask is requested, the digests differ and the dimensions
    differ, [equalImgMatrix] panics with an index out of range: the error of
    [diffMatrix] is not returned, since [len(diff[0])] is evaluated on the
    nil mask before the error is looked at. *)
Theorem equalImgMatrix_loses_dimension_error (mat1 mat2 : Matrix) :
  dimensionsDiffer mat1 mat2 ->
  Sha256.sum256 (concat mat1) ≠ Sha256.sum256 (concat mat2) ->
  (exists e, diffMatrix mat1 mat2 = Err e) /\
  equalImgMatrix mat1 mat2 true = Panic IndexOutOfRange.
Proof.
  intros Hdiff Hne. split.
  - destruct (diffMatrix_mismatch _ _ Hdiff) as (e & He & _). by exists e.
  - by apply equalImgMatrix_mismatch_panics.
Qed.

Lemma equalImgMatrix_loses_dimension_error_witness :
  (exists e, diffMatrix [[0; 0; 0]] [[0; 0; 0; 0; 0; 0]] = Err e) /\
  equalImgMatrix [[0; 0; 0]] [[0; 0; 0; 0; 0; 0]] true = Panic IndexOutOfRange.
Proof.
  apply (equalImgMatrix_loses_dimension_error [[0; 0; 0]] [[0; 0; 0; 0; 0; 0]]).
  - right. exists 0%nat, [0; 0; 0], [0; 0; 0; 0; 0; 0]. repeat split. simpl. lia.
  - intros H. vm_compute in H. discriminate.
Defined.

(** ** The pixel-dump parser *)

Lemma readNextValue_gathers (tok value rest : string) (sep : ascii) :
  separatorFree tok -> isSeparator sep = true -> (value ++ tok)%string ≠ EmptyString ->
  readNextValue value (tok ++ String sep rest) = Ok ((value ++ tok)%string, rest).
Proof.
  unfold separatorFree. revert value.
  induction tok as [|c tok IH]; intros value Hfree Hsep Hne; simpl in *.
  - unfold isSeparator in Hsep. rewrite Hsep.
    assert (value ++ "" = value)%string as E
      by (clear; induction value; simpl; congruence).
    rewrite E in *. by rewrite (proj2 (String.eqb_neq _ _) Hne).
  - apply andb_true_iff in Hfree as [Hc Hfree]. apply negb_true_iff in Hc.
    unfold isSeparator in Hc. rewrite Hc.
    assert (forall s, (s ++ String c tok = (s ++ String c "") ++ tok)%string) as E
      by (clear; intros s; induction s; simpl; congruence).
    rewrite E. apply IH; try done. rewrite <- E.
    clear. destruct value; discriminate.
Qed.





(** *** Loops that read samples *)

Lemma readSamples_app (n1 n2 : nat) (b : bool) (rd : string) :
  readSamples (n1 + n2) b rd
  = do '(v1, rd1) <- readSamples n1 b rd;
    do '(v2, rd2) <- readSamples n2 b rd1;
    Ok (v1 ++ v2, rd2).
Proof.
  revert rd. induction n1 as [|n1 IH]; intros rd; simpl.
  - by destruct (readSamples n2 b rd) as [[v2 rd2]| |].
  - destruct (readSample b rd) as [[c rd1]| |]; simpl; try done.
    rewrite IH. destruct (readSamples n1 b rd1) as [[v1 rd1']| |]; simpl; try done.
    by destruct (readSamples n2 b rd1') as [[v2 rd2]| |].
Qed.

Lemma readSamples_length (n : nat) (b : bool) (rd rd' : string) (vs : list Z) :
  readSamples n b rd = Ok (vs, rd') -> length vs = n.
Proof.
  revert rd vs. induction n as [|n IH]; intros rd vs; simpl.
  - by intros [= <- <-].
  - destruct (readSample b rd) as [[c rd1]| |]; simpl; try done.
    destruct (readSamples n b rd1) as [[cs rd2]| |] eqn:E; simpl; try done.
    intros [= <- <-]. simpl. f_equal. by eapply IH.
Qed.

(** A loop whose iteration [k] reads [m] samples and turns the state into
    [F k samples state] reads [n * m] samples in all. *)
Lemma forEach_consume {St} (b : bool) (m : nat)
    (body : nat -> St * string -> result (St * string))
    (F : nat -> list Z -> St -> St) (Inv : nat -> St -> Prop)
    (n a : nat) (st : St) (rd : string) :
  Inv a st ->
  (forall k st rd, (a <= k < a + n)%nat -> Inv k st ->
     body k (st, rd) = mapOk (fun '(vs, rd') => (F k vs st, rd')) (readSamples m b rd)) ->
  (forall k st vs, (a <= k < a + n)%nat -> Inv k st -> length vs = m ->
     Inv (S k) (F k vs st)) ->
  forEach (seq a n) body (st, rd)
  = mapOk (fun '(vs, rd') => (consume F m a n vs st, rd')) (readSamples (n * m) b rd).
Proof.
  revert a st rd. induction n as [|n IH]; intros a st rd Hinv Hbody Hstep; [done|].
  cbn [seq forEach]. rewrite Hbody by (done || lia).
  change (S n * m)%nat with (m + n * m)%nat. rewrite readSamples_app.
  destruct (readSamples m b rd) as [[vs1 rd1]| |] eqn:E1; simpl; try done.
  pose proof (readSamples_length _ _ _ _ _ E1) as Hl.
  rewrite (IH (S a) (F a vs1 st) rd1).
  - destruct (readSamples (n * m) b rd1) as [[vs2 rd2]| |]; simpl; try done.
    by rewrite take_app_length', drop_app_length' by done.
  - apply Hstep; (done || lia).
  - intros k st' rd' Hk. apply Hbody. lia.
  - intros k st' vs Hk. apply Hstep. lia.
Qed.

(** *** Blocks written into a row *)

Lemma length_writeAt {A} (off : nat) (vals row : list A) :
  (off + length vals <= length row)%nat -> length (writeAt off vals row) = length row.
Proof.
  intros H. unfold writeAt. rewrite !length_app, length_take, length_drop. lia.
Qed.

Lemma writeAt_writeAt {A} (off : nat) (v1 v2 row : list A) :
  (off + length v1 + length v2 <= length row)%nat ->
  writeAt (off + length v1) v2 (writeAt off v1 row) = writeAt off (v1 ++ v2) row.
Proof.
  intros H. unfold writeAt.
  assert (length (take off row) = off) as Ht by (rewrite length_take; lia).
  rewrite (app_assoc (take off row) v1).
  rewrite take_app_length' by (rewrite length_app; lia).
  rewrite drop_app_ge by (rewrite length_app; lia).
  rewrite length_app, Ht.
  replace (off + length v1 + length v2 - (off + length v1))%nat with (length v2) by lia.
  rewrite drop_drop, length_app, <- !app_assoc. do 3 f_equal.
  f_equal. lia.
Qed.

Lemma insert_writeAt {A} (i : nat) (x : A) (row : list A) :
  (i < length row)%nat -> <[i := x]> row = writeAt i [x] row.
Proof.
  intros H. unfold writeAt. rewrite insert_take_drop by done. simpl.
  do 3 f_equal. lia.
Qed.

Lemma writeAt_all {A} (vals row : list A) :
  length vals = length row -> writeAt 0 vals row = vals.
Proof.
  intros H. unfold writeAt. rewrite take_0, drop_ge by lia. simpl. apply app_nil_r.
Qed.

Lemma consume_writeBlock (y : nat) (f : Z -> Z) (base m : nat) (n a : nat)
    (vs : list Z) (st : Matrix) (row : list Z) :
  st !! y = Some row -> length vs = (n * m)%nat ->
  (base + (a + n) * m <= length row)%nat ->
  consume (writeBlock y f base m) m a n vs st
  = <[y := writeAt (base + a * m) (map f vs) row]> st.
Proof.
  revert a vs st row. induction n as [|n IH]; intros a vs st row Hrow Hlen Hfit.
  - destruct vs; [|done]. simpl. unfold writeAt. simpl.
    rewrite Nat.add_0_r, take_drop. symmetry. by apply list_insert_id.
  - cbn [consume]. pose proof (lookup_lt_Some _ _ _ Hrow) as Hy.
    assert (length (take m vs) = m) as Ht by (rewrite length_take; lia).
    set (row1 := writeAt (base + a * m) (map f (take m vs)) row).
    assert (writeBlock y f base m a (take m vs) st = <[y := row1]> st) as ->
      by (unfold writeBlock; by rewrite (list_lookup_total_correct _ _ _ Hrow)).
    assert (length row1 = length row) as Hl1
      by (apply length_writeAt; rewrite length_map; lia).
    rewrite (IH (S a) (drop m vs) (<[y := row1]> st) row1).
    + rewrite list_insert_insert_eq. f_equal. subst row1.
      replace (base + S a * m)%nat with (base + a * m + length (map f (take m vs)))%nat
        by (rewrite length_map; lia).
      rewrite writeAt_writeAt by (rewrite !length_map, length_drop; lia).
      by rewrite <- map_app, take_drop.
    + by apply list_lookup_insert_eq.
    + rewrite length_drop. lia.
    + lia.
Qed.

(** The three samples of a pixel: the innermost loop of [ppmToMatrix]. *)
Lemma samples_of_pixel (isBinary : bool) (maxColor : Z) (y x : nat)
    (pixels : Matrix) (reader : string) (row : list Z) :
  maxColor ≠ 0 -> pixels !! y = Some row -> (x * 3 + 3 <= length row)%nat ->
  forRange 3
    (fun i '(pixels, reader) =>
       do '(color, reader) <- readSample isBinary reader;
       do row <- at_ pixels y;
       do scaled <- intDiv (wrap64 (color * 255)) maxColor;
       do row <- store row (x * 3 + i) (byte scaled);
       do pixels <- store pixels y row;
       Ok (pixels, reader))
    (pixels, reader)
  = mapOk (fun '(vs, rd') => (writeBlock y (scale maxColor) 0 3 x vs pixels, rd'))
          (readSamples 3 isBinary reader).
Proof.
  intros HM Hrow Hfit. unfold forRange.
  rewrite (forEach_consume isBinary 1 _ (writeBlock y (scale maxColor) (x * 3) 1)
             (fun _ st => exists row, st !! y = Some row /\ (x * 3 + 3 <= length row)%nat)).
  - change (3 * 1)%nat with 3%nat.
    destruct (readSamples 3 isBinary reader) as [[vs rd']| |] eqn:E; cbn [mapOk]; try done.
    pose proof (readSamples_length _ _ _ _ _ E) as Hl.
    rewrite (consume_writeBlock y _ (x * 3) 1 3 0 vs pixels row) by (done || lia).
    unfold writeBlock. rewrite (list_lookup_total_correct _ _ _ Hrow).
    do 3 f_equal. f_equal. lia.
  - by exists row.
  - intros k st rd Hk (r & Hr & Hfr). cbv beta iota. simpl readSamples.
    destruct (readSample isBinary rd) as [[color rd1]| |]; simpl; try done.
    unfold at_. rewrite Hr. cbn [bind]. unfold intDiv.
    rewrite (proj2 (Z.eqb_neq _ _) HM). cbn [bind]. unfold store.
    rewrite decide_True by lia. cbn [bind].
    rewrite decide_True by (by eapply lookup_lt_Some).
    unfold writeBlock. rewrite (list_lookup_total_correct _ _ _ Hr).
    cbn [bind]. rewrite (insert_writeAt (x * 3 + k) _ r) by lia.
    replace (x * 3 + k * 1)%nat with (x * 3 + k)%nat by lia. done.
  - intros k st vs Hk (r & Hr & Hfr) Hl. unfold writeBlock.
    rewrite (list_lookup_total_correct _ _ _ Hr). eexists. split.
    + apply list_lookup_insert_eq. by eapply lookup_lt_Some.
    + rewrite length_writeAt; [done|]. rewrite length_map. lia.
Qed.

(** The samples of a row: the loop over [x] at row [y]. *)
Lemma samples_of_row (isBinary : bool) (maxColor : Z) (y w : nat)
    (pixels : Matrix) (reader : string) (row : list Z) :
  maxColor ≠ 0 -> pixels !! y = Some row -> length row = (w * 3)%nat ->
  forRange w
    (fun x st =>
       forRange 3
         (fun i '(pixels, reader) =>
            do '(color, reader) <- readSample isBinary reader;
            do row <- at_ pixels y;
            do scaled <- intDiv (wrap64 (color * 255)) maxColor;
            do row <- store row (x * 3 + i) (byte scaled);
            do pixels <- store pixels y row;
            Ok (pixels, reader))
         st)
    (pixels, reader)
  = mapOk (fun '(vs, rd') => (<[y := map (scale maxColor) vs]> pixels, rd'))
          (readSamples (w * 3) isBinary reader).
Proof.
  intros HM Hrow Hlen. unfold forRange at 1.
  rewrite (forEach_consume isBinary 3 _ (writeBlock y (scale maxColor) 0 3)
             (fun _ st => exists row, st !! y = Some row /\ length row = (w * 3)%nat)).
  - destruct (readSamples (w * 3) isBinary reader) as [[vs rd']| |] eqn:E; cbn [mapOk]; try done.
    pose proof (readSamples_length _ _ _ _ _ E) as Hl.
    rewrite (consume_writeBlock y _ 0 3 w 0 vs pixels row) by (done || lia).
    simpl. rewrite writeAt_all; [done|]. rewrite length_map. lia.
  - by exists row.
  - intros k st rd Hk (r & Hr & Hfr). cbv beta.
    apply (samples_of_pixel isBinary maxColor y k st rd r); [done|done|lia].
  - intros k st vs Hk (r & Hr & Hfr) Hl. unfold writeBlock.
    rewrite (list_lookup_total_correct _ _ _ Hr). eexists. split.
    + apply list_lookup_insert_eq. by eapply lookup_lt_Some.
    + rewrite length_writeAt; [done|]. rewrite length_map. lia.
Qed.

Lemma mapOk_ext {A B} (f g : A -> B) (r : result A) :
  (forall a, f a = g a) -> mapOk f r = mapOk g r.
Proof. intros H. destruct r; simpl; by rewrite ?H. Qed.

Lemma rowsOf_S (h w : nat) (vs : list Z) :
  rowsOf (S h) w vs = take w vs :: rowsOf h w (drop w vs).
Proof.
  unfold rowsOf. cbn [seq map]. rewrite drop_0. f_equal.
  rewrite <- seq_shift, map_map. apply map_ext. intros y.
  rewrite drop_drop. do 2 f_equal.
Qed.

Lemma consume_rows (f : Z -> Z) (m n a : nat) (vs : list Z) (st : Matrix) :
  (a + n <= length st)%nat ->
  consume (fun y vs st => <[y := map f vs]> st) m a n vs st
  = take a st ++ map (map f) (rowsOf n m vs) ++ drop (a + n) st.
Proof.
  revert a vs st. induction n as [|n IH]; intros a vs st Hfit.
  - simpl. by rewrite Nat.add_0_r, take_drop.
  - cbn [consume]. rewrite IH by (rewrite length_insert; lia).
    rewrite rowsOf_S. cbn [map].
    rewrite (take_S_r _ _ (map f (take m vs))) by (apply list_lookup_insert_eq; lia).
    rewrite take_insert_ge by lia.
    rewrite drop_insert_lt by lia.
    rewrite <- app_assoc. cbn [app]. do 3 f_equal. f_equal. lia.
Qed.

(** The three loops of [readPixels] as one read of [height * width * 3]
    samples. *)
Lemma readPixels_reads (isBinary : bool) (width height maxColor : Z) (reader : string) :
  maxColor ≠ 0 -> 0 <= width -> 0 <= height -> width * 3 < 2 ^ 63 ->
  readPixels isBinary width height maxColor reader
  = mapOk (fun '(vs, rd') =>
             (map (map (scale maxColor))
                  (rowsOf (Z.to_nat height) (Z.to_nat width * 3) vs), rd'))
          (readSamples (Z.to_nat height * (Z.to_nat width * 3)) isBinary reader).
Proof.
  intros HM Hw Hh Hover. unfold readPixels.
  rewrite make_nonneg by lia. cbn [bind]. unfold forRange at 1.
  set (H := Z.to_nat height). set (W := Z.to_nat width).
  rewrite (forEach_consume isBinary (W * 3) _
             (fun y vs st => <[y := map (scale maxColor) vs]> st)
             (fun _ st => length st = H)).
  - destruct (readSamples (H * (W * 3)) isBinary reader) as [[vs rd']| |];
      cbn [mapOk]; try done.
    rewrite consume_rows by (rewrite length_replicate; lia).
    rewrite take_0, drop_ge by (rewrite length_replicate; lia).
    by rewrite app_nil_r.
  - by rewrite length_replicate.
  - intros y st rd Hy Hst. cbv beta iota.
    rewrite wrap64_small by (change (2 ^ 63) with 9223372036854775808 in *; lia).
    rewrite make_nonneg by lia. cbn [bind].
    replace (Z.to_nat (width * 3)) with (W * 3)%nat by lia.
    unfold store at 1. rewrite decide_True by lia. cbn [bind].
    fold W.
    rewrite (samples_of_row isBinary maxColor y W _ rd (replicate (W * 3) 0)).
    + apply mapOk_ext. intros [vs rd']. by rewrite list_insert_insert_eq.
    + done.
    + apply list_lookup_insert_eq. lia.
    + by rewrite length_replicate.
  - intros y st vs Hy Hst Hl. by rewrite length_insert.
Qed.

(** X15. The pixel loop of the parser as one read.  For a maximum sample
    value other than 0 and a width and height that are not negative,
    [readPixels] succeeds exactly when [height * width * 3] samples can be
    read, with the error of the first sample that cannot; the matrix it
    returns has the samples in reading order, [width * 3] a row, each stored
    as [byte(sample * 255 / maxColor)], and the reader is left after the
    last sample read. *)
Theorem readPixels_samples (isBinary : bool) (width height maxColor : Z) (reader : string) :
  maxColor ≠ 0 -> 0 <= width -> 0 <= height -> width * 3 < 2 ^ 63 ->
  readPixels isBinary width height maxColor reader
  = mapOk (fun '(vs, rd') =>
             (map (map (scale maxColor))
                  (rowsOf (Z.to_nat height) (Z.to_nat width * 3) vs), rd'))
          (readSamples (Z.to_nat height * (Z.to_nat width * 3)) isBinary reader).
Proof.
  intros HM Hw Hh Hover. by apply readPixels_reads.
Qed.

Lemma readPixels_samples_witness :
  readPixels false 1 1 15 "15 7 0"%string
  = mapOk (fun '(vs, rd') =>
             (map (map (scale 15)) (rowsOf (Z.to_nat 1) (Z.to_nat 1 * 3) vs), rd'))
          (readSamples (Z.to_nat 1 * (Z.to_nat 1 * 3)) false "15 7 0"%string).
Proof.
  apply (readPixels_samples false 1 1 15 "15 7 0"%string).
  - discriminate.
  - lia.
  - lia.
  - reflexivity.
Defined.

(** *** The binary variant *)

Lemma readSamples_binary (data rest : string) :
  readSamples (String.length data) true (data ++ rest) = Ok (bytesOf data, rest).
Proof.
  induction data as [|c data IH]; [done|].
  cbn [String.length readSamples String.append readSample bind]. by rewrite IH.
Qed.

Lemma readSamples_binary_short (n : nat) (reader : string) :
  (String.length reader < n)%nat -> readSamples n true reader = Err ErrEOF.
Proof.
  revert reader. induction n as [|n IH]; intros reader Hlen; [lia|].
  destruct reader as [|c reader]; [done|].
  cbn [readSamples readSample bind]. rewrite IH; [done|]. simpl in Hlen. lia.
Qed.

Lemma byteOf_range (c : ascii) : 0 <= byteOf c <= 255.
Proof.
  unfold byteOf. pose proof (N_ascii_bounded c) as H. lia.
Qed.

Lemma bytesOf_range (data : string) : Forall isByte (bytesOf data).
Proof.
  unfold bytesOf. apply Forall_map, Forall_forall. intros c _. apply byteOf_range.
Qed.

Lemma scale_255 (c : Z) : 0 <= c <= 255 -> scale 255 c = c.
Proof.
  intros Hc. unfold scale.
  rewrite (wrap64_small (c * 255)) by (change (2 ^ 63) with 9223372036854775808; lia).
  rewrite Z.quot_mul by lia.
  rewrite wrap64_small by (change (2 ^ 63) with 9223372036854775808; lia).
  unfold byte. apply Z.mod_small. lia.
Qed.

Lemma map_scale_255 (vs : list Z) : Forall isByte vs -> map (scale 255) vs = vs.
Proof.
  induction 1 as [|c cs Hc _ IH]; [done|]. cbn [map]. by rewrite scale_255, IH.
Qed.

Lemma rowsOf_map (f : Z -> Z) (h w : nat) (vs : list Z) :
  map (map f) (rowsOf h w vs) = rowsOf h w (map f vs).
Proof.
  unfold rowsOf. rewrite map_map. apply map_ext. intros y.
  by rewrite skipn_map, firstn_map.
Qed.

(** X16. The binary variant.  When the header declares the binary format,
    a width and a height that are not negative and a maximum sample value
    other than 0, and [height * width * 3] bytes follow it, [ppmToMatrix]
    returns these bytes in order, [width * 3] a row, each scaled to
    [byte(b * 255 / maxColor)]; what follows them in the input is ignored.
    With a maximum sample value of 255 the matrix holds the bytes
    themselves. *)
Theorem ppmToMatrix_binary (rd data rest : string) (width height maxColor : Z) :
  readHeader rd = Ok (true, width, height, maxColor, (data ++ rest)%string) ->
  maxColor ≠ 0 -> 0 <= width -> 0 <= height -> width * 3 < 2 ^ 63 ->
  String.length data = (Z.to_nat height * (Z.to_nat width * 3))%nat ->
  ppmToMatrix rd
  = Ok (map (map (scale maxColor))
            (rowsOf (Z.to_nat height) (Z.to_nat width * 3) (bytesOf data))) /\
  (maxColor = 255 ->
   ppmToMatrix rd = Ok (rowsOf (Z.to_nat height) (Z.to_nat width * 3) (bytesOf data))).
Proof.
  intros Hhead HM Hw Hh Hover Hlen.
  assert (ppmToMatrix rd
          = Ok (map (map (scale maxColor))
                    (rowsOf (Z.to_nat height) (Z.to_nat width * 3) (bytesOf data)))) as Hrun.
  { unfold ppmToMatrix. rewrite Hhead. cbn [bind].
    rewrite readPixels_reads by done. rewrite <- Hlen, readSamples_binary. done. }
  split; [done|].
  intros ->. rewrite Hrun. f_equal. rewrite rowsOf_map. f_equal.
  apply map_scale_255, bytesOf_range.
Qed.

Lemma ppmToMatrix_binary_witness :
  ppmToMatrix ("P6" ++ newline ++ "1 2" ++ newline ++ "255" ++ newline ++ "abcdef" ++ "xyz")%string
  = Ok (map (map (scale 255)) (rowsOf (Z.to_nat 2) (Z.to_nat 1 * 3) (bytesOf "abcdef"))) /\
  (255 = 255 ->
   ppmToMatrix ("P6" ++ newline ++ "1 2" ++ newline ++ "255" ++ newline ++ "abcdef" ++ "xyz")%string
   = Ok (rowsOf (Z.to_nat 2) (Z.to_nat 1 * 3) (bytesOf "abcdef"))).
Proof.
  apply (ppmToMatrix_binary _ "abcdef" "xyz" 1 2 255).
  - reflexivity.
  - discriminate.
  - lia.
  - lia.
  - reflexivity.
  - reflexivity.
Defined.

(** X17. A binary body shorter than the declared size is an error, not a
    short matrix: with fewer than [height * width * 3] bytes after the
    header, [ppmToMatrix] returns [io.EOF]. *)
Theorem ppmToMatrix_binary_truncated (rd body : string) (width height maxColor : Z) :
  readHeader rd = Ok (true, width, height, maxColor, body) ->
  maxColor ≠ 0 -> 0 <= width -> 0 <= height -> width * 3 < 2 ^ 63 ->
  (String.length body < Z.to_nat height * (Z.to_nat width * 3))%nat ->
  ppmToMatrix rd = Err ErrEOF.
Proof.
  intros Hhead HM Hw Hh Hover Hlen. unfold ppmToMatrix. rewrite Hhead. cbn [bind].
  rewrite readPixels_reads by done. by rewrite readSamples_binary_short.
Qed.

Lemma ppmToMatrix_binary_truncated_witness :
  ppmToMatrix ("P6" ++ newline ++ "1 2" ++ newline ++ "255" ++ newline ++ "abcde")%string
  = Err ErrEOF.
Proof.
  apply (ppmToMatrix_binary_truncated _ "abcde" 1 2 255).
  - reflexivity.
  - discriminate.
  - lia.
  - lia.
  - reflexivity.
  - simpl. lia.
Defined.

(** *** The text variant *)

Lemma readSample_text (tok rest : string) (v : Z) :
  denotes tok v -> readSample false (tok ++ String " " rest) = Ok (v, rest).
Proof.
  intros (Hfree & Hne & Hv). unfold readSample.
  rewrite (readNextValue_gathers tok EmptyString rest " ") by done.
  cbn [bind String.append]. by rewrite Hv.
Qed.

Lemma readSamples_text (toks : list string) (vs : list Z) (rest : string) :
  Forall2 denotes toks vs ->
  readSamples (length toks) false (textOf toks ++ rest) = Ok (vs, rest).
Proof.
  induction 1 as [|tok v toks vs Hd _ IH]; [done|].
  cbn [length readSamples].
  change (textOf (tok :: toks)) with (tok ++ String " " (textOf toks))%string.
  assert (((tok ++ String " " (textOf toks)) ++ rest)%string
          = (tok ++ String " " (textOf toks ++ rest))%string) as ->
    by (clear; induction tok; simpl; congruence).
  rewrite (readSample_text tok _ v Hd). cbn [bind]. by rewrite IH.
Qed.

(** X18. The two variants agree.  A text body whose values denote, one by
    one, the bytes of a binary body parses to the same matrix as the binary
    body, under the same width, height and maximum sample value. *)
Theorem text_and_binary_agree (toks : list string) (data rest1 rest2 : string)
    (width height maxColor : Z) :
  Forall2 denotes toks (bytesOf data) ->
  maxColor ≠ 0 -> 0 <= width -> 0 <= height -> width * 3 < 2 ^ 63 ->
  String.length data = (Z.to_nat height * (Z.to_nat width * 3))%nat ->
  exists pixels,
    readPixels false width height maxColor (textOf toks ++ rest1) = Ok (pixels, rest1) /\
    readPixels true width height maxColor (data ++ rest2) = Ok (pixels, rest2).
Proof.
  intros Hd HM Hw Hh Hover Hlen.
  exists (map (map (scale maxColor))
              (rowsOf (Z.to_nat height) (Z.to_nat width * 3) (bytesOf data))).
  rewrite !readPixels_reads by done. split.
  - assert (length toks = String.length data) as Hl.
    { pose proof Hd as Hl2. apply Forall2_length in Hl2. rewrite Hl2. unfold bytesOf. rewrite length_map.
      clear. induction data; simpl; congruence. }
    rewrite <- Hlen, <- Hl. by rewrite (readSamples_text toks (bytesOf data)).
  - by rewrite <- Hlen, readSamples_binary.
Qed.

Lemma text_and_binary_agree_witness :
  exists pixels,
    readPixels false 1 1 255 (textOf ["97"; "98"; "99"]%string ++ "") = Ok (pixels, ""%string) /\
    readPixels true 1 1 255 ("abc" ++ "") = Ok (pixels, ""%string).
Proof.
  apply (text_and_binary_agree ["97"; "98"; "99"]%string "abc" "" "" 1 1 255).
  - repeat constructor; discriminate.
  - discriminate.
  - lia.
  - lia.
  - reflexivity.
  - reflexivity.
Defined.

(** *** The shape of a parsed image *)

(** What a loop that ran to its end has established. *)
Lemma forEach_ok {A St} (P : nat -> St -> Prop) (xs : list A)
    (body : A -> St -> result St) (s s' : St) :
  P 0%nat s ->
  (forall i x s s', xs !! i = Some x -> P i s -> body x s = Ok s' -> P (S i) s') ->
  forEach xs body s = Ok s' -> P (length xs) s'.
Proof.
  revert P s. induction xs as [|x xs IH]; intros P s H0 Hstep Hrun; simpl in *.
  - by injection Hrun as <-.
  - destruct (body x s) as [s1| |] eqn:E; simpl in Hrun; try done.
    apply (IH (fun i => P (S i)) s1); [|intros i y t t' Hy; apply (Hstep (S i) y t t' Hy)|done].
    by apply (Hstep 0%nat x s s1).
Qed.

Lemma byte_range (x : Z) : isByte (byte x).
Proof.
  unfold isByte, byte. pose proof (Z.mod_pos_bound x 256). lia.
Qed.

Lemma rowsDone_sample (isBinary : bool) (maxColor : Z) (h w y x i : nat)
    (pixels pixels' : Matrix) (reader reader' : string) :
  rowsDone h w (S y) pixels ->
  (do '(color, reader) <- readSample isBinary reader;
   do row <- at_ pixels y;
   do scaled <- intDiv (wrap64 (color * 255)) maxColor;
   do row <- store row (x * 3 + i) (byte scaled);
   do pixels <- store pixels y row;
   Ok (pixels, reader)) = Ok (pixels', reader') ->
  rowsDone h w (S y) pixels'.
Proof.
  intros [Hlen Hrows] Hrun.
  destruct (readSample isBinary reader) as [[color rd1]| |]; simpl in Hrun; try done.
  unfold at_ in Hrun. destruct (pixels !! y) as [row|] eqn:Hrow; simpl in Hrun; try done.
  destruct (intDiv _ maxColor) as [scaled| |]; simpl in Hrun; try done.
  unfold store in Hrun.
  destruct (decide (x * 3 + i < length row)%nat); simpl in Hrun; try done.
  destruct (decide (y < length pixels)%nat); simpl in Hrun; try done.
  injection Hrun as <- <-. split; [by rewrite length_insert|].
  intros j r Hj Hr. destruct (decide (j = y)) as [->|Hne].
  - rewrite list_lookup_insert_eq in Hr by done. injection Hr as <-.
    destruct (Hrows y row) as [Hl Hb]; [lia|done|].
    split; [by rewrite length_insert|].
    apply Forall_insert; [done|apply byte_range].
  - rewrite list_lookup_insert_ne in Hr by done. apply (Hrows j r); [lia|done].
Qed.

Lemma readPixels_shape (isBinary : bool) (width height maxColor : Z)
    (reader rest : string) (pixels : Matrix) :
  readPixels isBinary width height maxColor reader = Ok (pixels, rest) ->
  wellFormed (Z.to_nat height) (Z.to_nat (wrap64 (width * 3))) pixels.
Proof.
  unfold readPixels, make. intros Hrun.
  destruct (height <? 0); simpl in Hrun; [done|].
  set (h := Z.to_nat height) in *. set (w := Z.to_nat (wrap64 (width * 3))) in *.
  unfold forRange in Hrun.
  apply (forEach_ok (fun y st => rowsDone h w y st.1)) in Hrun.
  - rewrite length_seq in Hrun. destruct Hrun as [Hlen Hrows]. simpl in *.
    split; [done|]. split; apply Forall_lookup; intros j row Hj;
      (apply (Hrows j row); [|done]); rewrite <- Hlen; by eapply lookup_lt_Some.
  - split; [apply length_replicate|]. intros j row Hj. lia.
  - clear Hrun. intros i y [px rd] [px' rd'] Hy [Hlen Hrows] Hrun. cbn [fst] in *.
    apply lookup_seq in Hy as [-> Hy]. cbn [Nat.add] in *.
    destruct (wrap64 (width * 3) <? 0); cbn [bind] in Hrun; [done|].
    unfold store in Hrun at 1.
    destruct (decide (i < length px)%nat); cbn [bind] in Hrun; [|done].
    apply (forEach_ok (fun _ st => rowsDone h w (S i) st.1)) in Hrun; [done| |].
    + split; [simpl; by rewrite length_insert|]. simpl. intros j r Hj Hr.
      destruct (decide (j = i)) as [->|Hne].
      * rewrite list_lookup_insert_eq in Hr by done. injection Hr as <-.
        split; [by rewrite length_replicate|]. by apply Forall_replicate.
      * rewrite list_lookup_insert_ne in Hr by done. apply (Hrows j r); [lia|done].
    + clear Hrun. intros k x [p1 r1] [p2 r2] _ Hinv Hrun. cbn [fst] in *.
      apply (forEach_ok (fun _ st => rowsDone h w (S i) st.1)) in Hrun; [done|done|].
      clear Hrun. intros k' c [p3 r3] [p4 r4] _ Hinv' Hrun. cbn [fst] in *.
      by eapply rowsDone_sample.
Qed.

(** X19. What a successful parse returns.  When [ppmToMatrix] returns a
    matrix, it has as many rows as the header declares, every row has the
    same length, three bytes for each pixel of the declared width, and every
    entry is a byte: the matrix is one the comparison and the annotation can
    take. *)
Theorem ppmToMatrix_well_formed (rd body : string) (isBinary : bool)
    (width height maxColor : Z) (mat : Matrix) :
  readHeader rd = Ok (isBinary, width, height, maxColor, body) ->
  ppmToMatrix rd = Ok mat ->
  wellFormed (Z.to_nat height) (Z.to_nat (wrap64 (width * 3))) mat.
Proof.
  intros Hhead. unfold ppmToMatrix. rewrite Hhead. cbn [bind].
  destruct (readPixels isBinary width height maxColor body) as [[pixels rest]| |] eqn:E;
    simpl; try done.
  intros [= <-]. by eapply readPixels_shape.
Qed.

Lemma ppmToMatrix_well_formed_witness :
  wellFormed (Z.to_nat 1) (Z.to_nat (wrap64 (2 * 3)))
    [[0; 255; 102; 255; 0; 51]].
Proof.
  apply (ppmToMatrix_well_formed
           ("P3" ++ newline ++ "2 1" ++ newline ++ "5" ++ newline ++ "0 5 2 5 0 1" ++ newline)%string
           ("0 5 2 5 0 1" ++ newline)%string false 2 1 5).
  - reflexivity.
  - reflexivity.
Defined.

(** ** The page loop on pages that match *)

Lemma equalImgMatrix_same_hash (mat1 mat2 : Matrix) (diff : bool) :
  hash mat1 = hash mat2 -> equalImgMatrix mat1 mat2 diff = Ok (true, []).
Proof.
  rewrite !hash_concat. intros [= H]. rewrite equalImgMatrix_unfold, H.
  unfold bytesEqual. by rewrite bool_decide_eq_true_2.
Qed.

Lemma comparePage_match (c : Collaborators) (file1 file2 : string) (images : bool)
    (pdf : option Writer) (resolution ratio : Z) (i : nat) (files : list PageFile)
    (t : list event) :
  pageMatches c file1 file2 resolution (pageOf i) ->
  comparePage c file1 file2 images pdf resolution ratio i (true, files) t
  = (Ok (Continue, (true, files)), t ++ renders file1 file2 resolution [i]).
Proof.
  intros (mat1 & mat2 & H1 & H2 & Heq).
  unfold renderedPage in H1, H2. unfold pageOf in *.
  unfold comparePage, bindM, call, lift, ret.
  destruct (PdfToPPM c file1 (Z.of_nat i + 1) resolution) as [ppm1| |]; try discriminate.
  destruct (PdfToPPM c file2 (Z.of_nat i + 1) resolution) as [ppm2| |]; try discriminate.
  cbn [bind] in H1, H2. rewrite H1, H2.
  rewrite (equalImgMatrix_same_hash _ _ _ Heq).
  unfold renders, pageOf. cbn [flat_map negb andb]. by rewrite app_nil_r, <- app_assoc.
Qed.

Lemma pageLoop_matching (c : Collaborators) (file1 file2 : string) (images : bool)
    (pdf : option Writer) (resolution ratio : Z) (k start : nat) (rest : list nat)
    (t : list event) :
  (forall i, (start <= i < start + k)%nat ->
     pageMatches c file1 file2 resolution (pageOf i)) ->
  pageLoop (comparePage c file1 file2 images pdf resolution ratio)
           (seq start k ++ rest) (true, []) t
  = pageLoop (comparePage c file1 file2 images pdf resolution ratio)
             rest (true, []) (t ++ renders file1 file2 resolution (seq start k)).
Proof.
  revert start t. induction k as [|k IH]; intros start t Hsame.
  - simpl. unfold renders. simpl. by rewrite app_nil_r.
  - cbn [seq app pageLoop]. unfold bindM at 1.
    rewrite comparePage_match by (apply Hsame; lia).
    rewrite IH by (intros; apply Hsame; lia).
    f_equal. rewrite <- app_assoc. done.
Qed.

(** X20. Documents whose pages match.  When every page of the first document
    renders and parses in both documents to matrices of the same digest, and
    the page counts agree or images are requested, the orchestrator returns
    true, whatever outputs are requested and whatever [ratio] is: it has
    asked for the two page counts and rendered the pages 1 to [pages1] of
    both documents, and has created no file, encoded no image, built no
    document and never divided by [ratio].  With images requested this
    includes a second document that has more pages than the first: the
    pages after [pages1] are not looked at and the answer is true. *)
Theorem matching_documents_are_equal (c : Collaborators) (file1 file2 : string)
    (images : bool) (pdf : option Writer) (resolution ratio pages1 pages2 : Z) :
  file1 ≠ file2 ->
  PageCount c file1 = Ok pages1 ->
  PageCount c file2 = Ok pages2 ->
  pages1 = pages2 \/ images = true ->
  (forall i, (i < Z.to_nat pages1)%nat ->
     pageMatches c file1 file2 resolution (pageOf i)) ->
  EqualPDFs c file1 file2 images pdf resolution ratio []
  = (Ok true,
     [EvPageCount file1; EvPageCount file2]
     ++ renders file1 file2 resolution (seq 0 (Z.to_nat pages1))).
Proof.
  intros Hne Hc1 Hc2 Hcount Hsame. unfold EqualPDFs.
  rewrite (proj2 (String.eqb_neq _ _) Hne).
  unfold bindM at 1, call at 1. rewrite Hc1. cbn [wrapErr].
  unfold bindM at 1, call at 1. rewrite Hc2. cbn [wrapErr app].
  assert (negb (pages1 =? pages2) && negb images = false) as ->.
  { destruct Hcount as [->| ->]; [by rewrite Z.eqb_refl|apply andb_false_r]. }
  rewrite <- (app_nil_r (seq 0 (Z.to_nat pages1))) at 1.
  unfold bindM at 1.
  rewrite pageLoop_matching by (intros; apply Hsame; lia).
  cbn [pageLoop]. unfold ret at 1. unfold bindM. by destruct pdf.
Qed.

(** A first document of one page that matches page 1 of a second document of
    two pages, images requested: the answer is true. *)
Lemma matching_documents_are_equal_witness :
  EqualPDFs oneAndTwo "one.pdf" "two.pdf" true None 300 0 []
  = (Ok true,
     [EvPageCount "one.pdf"; EvPageCount "two.pdf"]
     ++ renders "one.pdf" "two.pdf" 300 (seq 0 (Z.to_nat 1))).
Proof.
  apply (matching_documents_are_equal oneAndTwo "one.pdf" "two.pdf" true None 300 0 1 2).
  - discriminate.
  - reflexivity.
  - reflexivity.
  - by right.
  - intros i Hi. assert (i = 0%nat) as -> by lia.
    exists [[0; 0; 0]], [[0; 0; 0]]. repeat split; vm_compute; reflexivity.
Defined.

(** X21. A page the renderer fails on.  When the pages before page [p + 1]
    match and the second document fails to render page [p + 1], the first
    one rendering it, the orchestrator returns the renderer's error as it
    is, whatever outputs are requested: it has rendered pages 1 to [p + 1],
    created no file and built no document.  This is what happens, with
    images requested, when the first document has more pages than the
    second and the common pages match. *)
Theorem renderer_error_is_returned (c : Collaborators) (file1 file2 : string)
    (images : bool) (pdf : option Writer) (resolution ratio pages1 pages2 : Z)
    (p : nat) (ppm1 : string) (e : error) :
  file1 ≠ file2 ->
  PageCount c file1 = Ok pages1 ->
  PageCount c file2 = Ok pages2 ->
  pages1 = pages2 \/ images = true ->
  pageOf p <= pages1 ->
  (forall i, (i < p)%nat -> pageMatches c file1 file2 resolution (pageOf i)) ->
  PdfToPPM c file1 (pageOf p) resolution = Ok ppm1 ->
  PdfToPPM c file2 (pageOf p) resolution = Err e ->
  EqualPDFs c file1 file2 images pdf resolution ratio []
  = (Err e,
     [EvPageCount file1; EvPageCount file2]
     ++ renders file1 file2 resolution (seq 0 (S p))).
Proof.
  intros Hne Hc1 Hc2 Hcount Hp Hsame Hr1 Hr2. unfold EqualPDFs.
  rewrite (proj2 (String.eqb_neq _ _) Hne).
  unfold bindM at 1, call at 1. rewrite Hc1. cbn [wrapErr].
  unfold bindM at 1, call at 1. rewrite Hc2. cbn [wrapErr app].
  assert (negb (pages1 =? pages2) && negb images = false) as ->.
  { destruct Hcount as [->| ->]; [by rewrite Z.eqb_refl|apply andb_false_r]. }
  unfold pageOf in Hp.
  rewrite (seq_S p 0), Nat.add_0_l. unfold renders at 1. rewrite flat_map_app.
  fold (renders file1 file2 resolution (seq 0 p)).
  replace (Z.to_nat pages1) with (p + S (Z.to_nat pages1 - S p))%nat by lia.
  rewrite seq_app, Nat.add_0_l.
  unfold bindM at 1.
  rewrite pageLoop_matching by (intros; apply Hsame; lia).
  cbn [seq pageLoop]. unfold bindM at 1.
  unfold pageOf in Hr1, Hr2.
  unfold comparePage, bindM, call, lift. rewrite Hr1, Hr2.
  cbn [flat_map]. by rewrite app_nil_r, <- !app_assoc.
Qed.

(** A first document of two pages against a second of one page, images
    requested: page 2 of the second document does not render. *)
Lemma renderer_error_is_returned_witness :
  EqualPDFs oneAndTwo "two.pdf" "one.pdf" true None 300 30 []
  = (Err (ErrExternal "pdftoppm failed"),
     [EvPageCount "two.pdf"; EvPageCount "one.pdf"]
     ++ renders "two.pdf" "one.pdf" 300 (seq 0 2)).
Proof.
  apply (renderer_error_is_returned oneAndTwo "two.pdf" "one.pdf" true None 300 30 2 1 1 grey).
  - discriminate.
  - reflexivity.
  - reflexivity.
  - by right.
  - vm_compute. discriminate.
  - intros i Hi. assert (i = 0%nat) as -> by lia.
    exists [[0; 0; 0]], [[0; 0; 0]]. repeat split; vm_compute; reflexivity.
  - reflexivity.
  - reflexivity.
Defined.

(** ** The header of a pixel dump *)

Local Open Scope string_scope.























Local Close Scope string_scope.
